(** * mig_load_data: the batch loader of scripts/python/mig_load_data.py

    The script stages local [<table>.csv.gz] files into an internal stage of
    the warehouse, bulk-loads them, and archives each loaded file by moving
    it from the [not_processed] folder of the stage to [processed].

    The embedding follows the script statement by statement.  What the
    script talks to is kept explicit:
    - the configuration module ([TARGET_CONFIG], [DATA_TABLES_TO_EXPORT],
      [OUTPUT_DIR_DATA]) is a record passed to [main];
    - the local machine ([os.path.exists], [os.path.abspath]) is a record of
      two functions; [os.path.abspath] resolves a relative path against
      the current directory and has no result when there is none;
    - the warehouse is a state (the stages that exist, the files they hold)
      together with the list of answers the connector will give to the next
      calls that reach the network ([connect], [execute]): [None] lets the
      call through, [Some e] makes it raise [e];
    - every call into the connector and every [print] is an entry of the
      trace a computation gives out, stamped with the state of the
      warehouse after it.

    Python exceptions are results of a small state-and-exception monad with
    [try ... except] and [try ... finally] combinators.  The calls that
    reach the network can raise: [connect] and every [execute]; a call that
    raises leaves the warehouse as it was.  [os.path.abspath] raises when
    the current directory is gone.  [conn.cursor()], [conn.close()] and
    [print] do not raise.  The local files do not change during a run. *)

From Stdlib Require Import ZArith Ascii.
From stdpp Require Import base strings list gmap.

Open Scope Z_scope.

Set Warnings "-clear-no-such-hyp".

(** ** Configuration (module [config], imported by the script) *)

Record target_config := {
  tc_user : string;
  tc_password : string;
  tc_account : string;
  tc_warehouse : string;
  tc_database : string;
  tc_schema : string;
  tc_role : string;
}.

Record config := {
  TARGET_CONFIG : target_config;
  DATA_TABLES_TO_EXPORT : list string;
  OUTPUT_DIR_DATA : string;
}.

(** ** Stage paths (lines 7-9) *)

Definition STAGE_NAME : string := "MIGRATION_LOAD_STAGE".
Definition PATH_TODO : string := "not_processed".
Definition PATH_DONE : string := "processed".

(** ** The local machine *)

(** [os.path.exists] answers for every path.  [os.path.abspath] asks for
    the current directory when the path is relative, and that call raises
    [FileNotFoundError] when the directory has been removed: [None]. *)
Record host := {
  os_path_exists : string → bool;
  os_path_abspath : string → option string;
}.

Module Path.

Definition slash : ascii := Ascii.ascii_of_nat 47.

Definition is_slash (c : ascii) : bool := bool_decide (c = slash).

Fixpoint has_slash (s : string) : bool :=
  match s with
  | EmptyString => false
  | String c s' => is_slash c || has_slash s'
  end.

Definition startswith_slash (s : string) : bool :=
  match s with
  | EmptyString => false
  | String c _ => is_slash c
  end.

Fixpoint endswith_slash (s : string) : bool :=
  match s with
  | EmptyString => false
  | String c EmptyString => is_slash c
  | String _ s' => endswith_slash s'
  end.

(** [os.path.join a b] of posixpath, for two components. *)
Definition join (a b : string) : string :=
  if startswith_slash b then b
  else if bool_decide (a = EmptyString) || endswith_slash a then a +:+ b
  else a +:+ String slash b.

(** The last component of a path: what follows its last slash. *)
Fixpoint basename (s : string) : string :=
  match s with
  | EmptyString => EmptyString
  | String c s' =>
      if has_slash s' then basename s'
      else if is_slash c then s' else s
  end.

End Path.

(** ** Statements sent through [cur.execute]

    The SQL texts built by the f-strings are kept as syntax trees whose
    fields are the interpolated values and the options written in the
    text. *)

Inductive on_error := CONTINUE | SKIP_FILE | ABORT_STATEMENT.

Definition double_quote : ascii := Ascii.ascii_of_nat 34.

Record file_format := {
  ff_type : string;
  ff_skip_header : nat;
  ff_field_optionally_enclosed_by : option ascii;
  ff_null_if : list string;
}.

Inductive stmt :=
| UseSchema (db sch : string)
| CreateStage (if_not_exists : bool) (name : string) (ff : file_format)
| Put (file : string) (location : string) (overwrite : bool)
| CopyInto (table : string) (from : string) (ff : file_format)
           (on_err : on_error) (purge : bool)
| Remove (path : string).

(** [@STAGE/folder/], written without the [@]. *)
Definition stage_folder (folder : string) : string :=
  STAGE_NAME +:+ "/" +:+ folder +:+ "/".

(** ** The warehouse *)

Inductive error :=
| ProgrammingError   (* snowflake.connector.errors.ProgrammingError *)
| OtherError         (* any other subclass of Exception, OSError included *)
| KeyboardInterrupt. (* a BaseException that is not an Exception *)

Record snowflake := {
  stages : gset string;
  files : gset string;
}.

Definition put_file (location file : string) (sf : snowflake) : snowflake :=
  {| stages := stages sf;
     files := {[ location +:+ Path.basename file ]} ∪ files sf |}.

Definition remove_file (path : string) (sf : snowflake) : snowflake :=
  {| stages := stages sf; files := files sf ∖ {[ path ]} |}.

Definition create_stage (name : string) (sf : snowflake) : snowflake :=
  {| stages := {[ name ]} ∪ stages sf; files := files sf |}.

(** What a statement does to the warehouse when the connector lets it
    through.  A [PUT] stores the file in the given location under the last
    component of its local path; [REMOVE] deletes the file at the path it
    names; [COPY INTO] leaves the stage alone unless it purges; [CREATE
    STAGE] on a stage that exists is an error unless it says [IF NOT
    EXISTS].  The rows of the tables and the contents of the files are not
    part of the state. *)
Definition run_stmt (s : stmt) (sf : snowflake) : error + snowflake :=
  match s with
  | UseSchema _ _ => inr sf
  | CreateStage if_not_exists name _ =>
      if bool_decide (name ∈ stages sf)
      then (if if_not_exists then inr sf else inl ProgrammingError)
      else inr (create_stage name sf)
  | Put file location _ => inr (put_file location file sf)
  | CopyInto _ from _ _ purge =>
      inr (if purge then remove_file from sf else sf)
  | Remove path => inr (remove_file path sf)
  end.

(** How many rejected rows make a [COPY INTO] with the given [ON_ERROR]
    raise: [CONTINUE] and [SKIP_FILE] report bad rows in the result of the
    statement and never raise for them, [ABORT_STATEMENT] raises on the
    first one. *)
Definition copy_raises_on (o : on_error) (bad_rows : nat) : bool :=
  match o with
  | CONTINUE => false
  | SKIP_FILE => false
  | ABORT_STATEMENT => bool_decide (0 < bad_rows)%nat
  end.

(** ** Traces *)

Inductive message :=
| MsgConnecting (account : string)
| MsgCreatingStage
| MsgSkipping (table : string)
| MsgProcessing (table : string)
| MsgUploading (location : string)
| MsgLoading (table : string)
| MsgLoadSuccessful
| MsgMoving (location : string)
| MsgLoadFailed (table : string)
| MsgFileRemains (path : string)
| MsgCriticalError (e : error)
| MsgFinished.

Inductive event :=
| EConnect (tc : target_config) (r : option error)
| ECursor
| EExecute (s : stmt) (r : option error)
| EClose
| EPrint (m : message).

Record entry := { ev : event; after : snowflake }.

#[export] Instance target_config_eq_dec : EqDecision target_config.
Proof. solve_decision. Defined.
#[export] Instance on_error_eq_dec : EqDecision on_error.
Proof. solve_decision. Defined.
#[export] Instance file_format_eq_dec : EqDecision file_format.
Proof. solve_decision. Defined.
#[export] Instance stmt_eq_dec : EqDecision stmt.
Proof. solve_decision. Defined.
#[export] Instance error_eq_dec : EqDecision error.
Proof. solve_decision. Defined.
#[export] Instance message_eq_dec : EqDecision message.
Proof. solve_decision. Defined.
#[export] Instance event_eq_dec : EqDecision event.
Proof. solve_decision. Defined.

(** The state the script acts on: the warehouse, and the answers the
    connector still has in store. *)
Record world := {
  wh : snowflake;
  answers : list (option error);
}.

(** ** The monad of the script

    A computation starts in a world and yields a result (a value or a
    raised exception), the world it leaves behind, and the trace of what it
    did, oldest entry first. *)

Inductive raised :=
| Err (e : error)
| SystemExit (code : Z).

Inductive result (A : Type) :=
| Ok (a : A)
| Raise (r : raised).
Arguments Ok {A} a.
Arguments Raise {A} r.

Definition M (A : Type) : Type := world → result A * world * list entry.

Definition res {A} (x : result A * world * list entry) : result A := x.1.1.
Definition final {A} (x : result A * world * list entry) : world := x.1.2.
Definition out {A} (x : result A * world * list entry) : list entry := x.2.

#[export] Instance M_ret : MRet M := λ A a w, (Ok a, w, []).

#[export] Instance M_bind : MBind M := λ A B f m w,
  match m w with
  | (Ok a, w', tr) =>
      match f a w' with (r, w'', tr') => (r, w'', tr ++ tr') end
  | (Raise r, w', tr) => (Raise r, w', tr)
  end.

Definition raise {A} (r : raised) : M A := λ w, (Raise r, w, []).

(** [try: body except <class> as e: handler e] *)
Definition try_except {A} (body : M A) (catches : error → bool)
    (handler : error → M A) : M A := λ w,
  match body w with
  | (Raise (Err e), w', tr) =>
      if catches e
      then match handler e w' with (r, w'', tr') => (r, w'', tr ++ tr') end
      else (Raise (Err e), w', tr)
  | other => other
  end.

(** [try: body finally: cleanup]: the cleanup runs on every exit of the
    body; an exception of the cleanup replaces the result of the body. *)
Definition try_finally {A} (body : M A) (cleanup : M unit) : M A := λ w,
  match body w with
  | (r, w', tr) =>
      match cleanup w' with
      | (Ok _, w'', tr') => (r, w'', tr ++ tr')
      | (Raise r', w'', tr') => (Raise r', w'', tr ++ tr')
      end
  end.

Definition is_ProgrammingError (e : error) : bool :=
  match e with ProgrammingError => true | _ => false end.

Definition is_Exception (e : error) : bool :=
  match e with
  | ProgrammingError | OtherError => true
  | KeyboardInterrupt => false
  end.

(** [exit(code)] raises [SystemExit]. *)
Definition exit {A} (code : Z) : M A := raise (SystemExit code).

(** ** Calls into the connector and the console *)

Definition log (e : event) : M unit := λ w,
  (Ok tt, w, [{| ev := e; after := wh w |}]).

(** The connector's answer to the call being made; when the list of
    answers has run out the call goes through. *)
Definition next_answer : M (option error) := λ w,
  (Ok (default None (head (answers w))),
   {| wh := wh w; answers := tail (answers w) |}, []).

Definition set_wh (sf : snowflake) : M unit := λ w,
  (Ok tt, {| wh := sf; answers := answers w |}, []).

Definition get_wh : M snowflake := λ w, (Ok (wh w), w, []).

Definition print (m : message) : M unit := log (EPrint m).

(** [snowflake.connector.connect(...)] *)
Definition connect (tc : target_config) : M unit :=
  a ← next_answer;
  log (EConnect tc a);;
  match a with
  | Some e => raise (Err e)
  | None => mret tt
  end.

(** [conn.cursor()] *)
Definition cursor : M unit := log ECursor.

(** [cur.execute(sql)] *)
Definition execute (s : stmt) : M unit :=
  a ← next_answer;
  match a with
  | Some e => log (EExecute s (Some e));; raise (Err e)
  | None =>
      sf ← get_wh;
      match run_stmt s sf with
      | inl e => log (EExecute s (Some e));; raise (Err e)
      | inr sf' => set_wh sf';; log (EExecute s None)
      end
  end.

(** [conn.close()] *)
Definition close : M unit := log EClose.

(** ** The script *)

Definition csv_stage_format : file_format :=
  {| ff_type := "CSV"; ff_skip_header := 0;
     ff_field_optionally_enclosed_by := Some double_quote;
     ff_null_if := [] |}.

(** [NULL_IF=('NULL', 'nan', '\\\\N')]: the Python literal is the SQL text
    ['\\N'], which the warehouse reads as the two characters [\N]. *)
Definition csv_copy_format : file_format :=
  {| ff_type := "CSV"; ff_skip_header := 1;
     ff_field_optionally_enclosed_by := Some double_quote;
     ff_null_if := ["NULL"; "nan"; "\N"] |}.

Definition filename_of (table : string) : string := table +:+ ".csv.gz".

Definition copy_sql (table : string) : stmt :=
  CopyInto table (stage_folder PATH_TODO +:+ filename_of table)
           csv_copy_format CONTINUE false.

Definition get_connection (cfg : config) : M unit :=
  print (MsgConnecting (tc_account (TARGET_CONFIG cfg)));;
  connect (TARGET_CONFIG cfg).

Section Script.

Variable os : host.

(** The body of the [for] loop (lines 40-96). *)
Definition load_table (abs_path table : string) : M unit :=
  let filename := filename_of table in
  let file_path_local := Path.join abs_path filename in
  if negb (os_path_exists os file_path_local) then
    print (MsgSkipping table)
  else
    print (MsgProcessing table);;
    print (MsgUploading (stage_folder PATH_TODO));;
    execute (Put file_path_local (stage_folder PATH_TODO) true);;
    print (MsgLoading table);;
    try_except
      (execute (copy_sql table);;
       print MsgLoadSuccessful;;
       print (MsgMoving (stage_folder PATH_DONE));;
       execute (Put file_path_local (stage_folder PATH_DONE) true);;
       execute (Remove (stage_folder PATH_TODO +:+ filename)))
      is_ProgrammingError
      (λ e,
         print (MsgLoadFailed table);;
         print (MsgFileRemains (stage_folder PATH_TODO +:+ filename));;
         raise (Err e)).

(** [for table in tables: ...] *)
Fixpoint for_tables (abs_path : string) (tables : list string) : M unit :=
  match tables with
  | [] => mret tt
  | table :: rest => load_table abs_path table;; for_tables abs_path rest
  end.

(** The statements of the outer [try] (lines 31-96). *)
Definition main_try (cfg : config) (abs_path : string) : M unit :=
  execute (UseSchema (tc_database (TARGET_CONFIG cfg))
                     (tc_schema (TARGET_CONFIG cfg)));;
  print MsgCreatingStage;;
  execute (CreateStage true STAGE_NAME csv_stage_format);;
  for_tables abs_path (DATA_TABLES_TO_EXPORT cfg).

(** [os.path.abspath(path)] *)
Definition abspath (path : string) : M string :=
  match os_path_abspath os path with
  | Some p => mret p
  | None => raise (Err OtherError)
  end.

Definition main (cfg : config) : M unit :=
  get_connection cfg;;
  cursor;;
  abs_path ← abspath (OUTPUT_DIR_DATA cfg);
  try_finally
    (try_except
       (main_try cfg abs_path)
       is_Exception
       (λ e, print (MsgCriticalError e);; exit 1))
    (close;; print MsgFinished).

End Script.

(** The status the shell sees after [main()] (lines 106-107): zero when
    [main] returns, the code of a [SystemExit], 1 when an [Exception] goes
    uncaught, and 130 when a [KeyboardInterrupt] does (the interpreter then
    ends on the signal). *)
Definition exit_status {A} (r : result A) : Z :=
  match r with
  | Ok _ => 0
  | Raise (SystemExit code) => code
  | Raise (Err KeyboardInterrupt) => 130
  | Raise (Err _) => 1
  end.

(** ** Reading traces *)

Definition events {A} (x : result A * world * list entry) : list event :=
  ev <$> out x.

Definition statement_of (e : event) : option stmt :=
  match e with EExecute s _ => Some s | _ => None end.

Definition executed {A} (x : result A * world * list entry) : list stmt :=
  omap statement_of (events x).

Definition empty_snowflake : snowflake := {| stages := ∅; files := ∅ |}.

Definition start (sf : snowflake) (ans : list (option error)) : world :=
  {| wh := sf; answers := ans |}.

Definition demo_target : target_config :=
  {| tc_user := "loader"; tc_password := "secret"; tc_account := "acme";
     tc_warehouse := "WH"; tc_database := "DB"; tc_schema := "PUBLIC";
     tc_role := "LOADER" |}.

Definition demo_config (tables : list string) : config :=
  {| TARGET_CONFIG := demo_target; DATA_TABLES_TO_EXPORT := tables;
     OUTPUT_DIR_DATA := "out" |}.

(** A machine on which exactly the files of [present] exist. *)
Definition demo_host (present : list string) : host :=
  {| os_path_exists := λ p, bool_decide (p ∈ present);
     os_path_abspath := λ d, Some ("/work/" +:+ d) |}.

(** A machine whose current directory has been removed. *)
Definition stranded_host : host :=
  {| os_path_exists := λ _, false; os_path_abspath := λ _, None |}.

(** ** Vocabulary of the properties *)

(** A table name that is a single path component. *)
Definition plain (table : string) : Prop := Path.has_slash table = false.

(** [file_path_local] of the loop, and the two stage paths the script
    names for a table. *)
Definition local_file (abs_path table : string) : string :=
  Path.join abs_path (filename_of table).

Definition todo_path (table : string) : string :=
  stage_folder PATH_TODO +:+ filename_of table.

Definition done_path (table : string) : string :=
  stage_folder PATH_DONE +:+ filename_of table.

(** Where a [PUT] of [file] into a folder of the stage lands. *)
Definition staged (folder file : string) : string :=
  stage_folder folder +:+ Path.basename file.

Definition at_most_one (table : string) (sf : snowflake) : Prop :=
  ¬ (todo_path table ∈ files sf ∧ done_path table ∈ files sf).

Definition is_connect (e : event) : bool :=
  match e with EConnect _ _ => true | _ => false end.

Definition is_close (e : event) : bool :=
  match e with EClose => true | _ => false end.

Definition is_transfer (s : stmt) : bool :=
  match s with
  | Put _ _ _ | CopyInto _ _ _ _ _ | Remove _ => true
  | _ => false
  end.

Definition count (p : event → bool) (tr : list event) : nat :=
  length (filter (λ e, p e) tr).

Definition no_fault (ans : list (option error)) : Prop :=
  Forall (λ a, a = None) ans.

(** The move of a file is under way from the successful [PUT] into
    [processed] until the [REMOVE] that follows it has been tried, whether
    it went through or raised. *)
Definition moving_after (moving : bool) (e : event) : bool :=
  match e with
  | EExecute (Put _ location _) None =>
      if bool_decide (location = stage_folder PATH_DONE) then true else moving
  | EExecute (Remove _) _ => false
  | _ => moving
  end.

(** An upload that went through and landed on the path of [table] under
    [not_processed]; a [REMOVE] of that path that raised. *)
Definition is_upload_of (table : string) (e : event) : bool :=
  match e with
  | EExecute (Put file location _) None =>
      bool_decide (location +:+ Path.basename file = todo_path table)
  | _ => false
  end.

Definition is_failed_remove_of (table : string) (e : event) : bool :=
  match e with
  | EExecute (Remove path) (Some _) => bool_decide (path = todo_path table)
  | _ => false
  end.

(** The states of the warehouse at the points of a trace that lie outside
    a move. *)
Fixpoint stable_points (moving : bool) (tr : list entry) : list snowflake :=
  match tr with
  | [] => []
  | e :: tr' =>
      let moving' := moving_after moving (ev e) in
      (if moving' then [] else [after e]) ++ stable_points moving' tr'
  end.

(** Events that neither start nor finish a move. *)
Definition idle (e : event) : Prop := ∀ m, moving_after m e = m.

(** Whether a move is under way at the end of a trace. *)
Definition moving_end (moving : bool) (tr : list entry) : bool :=
  foldl moving_after moving (ev <$> tr).

(** ** One turn of the loop, as a relation

    The six ways in which the body of the loop can go for a table, with the
    world it starts from split into the warehouse [sf] and the answers
    [ans] of the connector. *)

Definition answer_at (n : nat) (ans : list (option error)) : option error :=
  default None (ans !! n).

Definition printed (m : message) (sf : snowflake) : entry :=
  {| ev := EPrint m; after := sf |}.

Definition ran (s : stmt) (r : option error) (sf : snowflake) : entry :=
  {| ev := EExecute s r; after := sf |}.

Definition load_failed_report (table : string) (e : error) (sf : snowflake)
    : list entry :=
  if is_ProgrammingError e
  then [ printed (MsgLoadFailed table) sf;
         printed (MsgFileRemains (todo_path table)) sf ]
  else [].

Section Turn.

Variable os : host.
Variables abs_path table : string.

Let file := local_file abs_path table.
Let put_todo := Put file (stage_folder PATH_TODO) true.
Let put_done := Put file (stage_folder PATH_DONE) true.
Let remove := Remove (todo_path table).

Definition upload_prefix (sf : snowflake) : list entry :=
  [ printed (MsgProcessing table) sf;
    printed (MsgUploading (stage_folder PATH_TODO)) sf ].

Inductive turn (sf : snowflake) (ans : list (option error))
  : result unit * world * list entry → Prop :=
| turn_skipped :
    os_path_exists os file = false →
    turn sf ans (Ok tt, start sf ans, [ printed (MsgSkipping table) sf ])
| turn_upload_failed e :
    os_path_exists os file = true →
    answer_at 0 ans = Some e →
    turn sf ans
      (Raise (Err e), start sf (drop 1 ans),
       upload_prefix sf ++ [ ran put_todo (Some e) sf ])
| turn_load_failed e :
    os_path_exists os file = true →
    answer_at 0 ans = None →
    answer_at 1 ans = Some e →
    let sf1 := put_file (stage_folder PATH_TODO) file sf in
    turn sf ans
      (Raise (Err e), start sf1 (drop 2 ans),
       upload_prefix sf ++
       [ ran put_todo None sf1;
         printed (MsgLoading table) sf1;
         ran (copy_sql table) (Some e) sf1 ] ++
       load_failed_report table e sf1)
| turn_archive_failed e :
    os_path_exists os file = true →
    answer_at 0 ans = None →
    answer_at 1 ans = None →
    answer_at 2 ans = Some e →
    let sf1 := put_file (stage_folder PATH_TODO) file sf in
    turn sf ans
      (Raise (Err e), start sf1 (drop 3 ans),
       upload_prefix sf ++
       [ ran put_todo None sf1;
         printed (MsgLoading table) sf1;
         ran (copy_sql table) None sf1;
         printed MsgLoadSuccessful sf1;
         printed (MsgMoving (stage_folder PATH_DONE)) sf1;
         ran put_done (Some e) sf1 ] ++
       load_failed_report table e sf1)
| turn_remove_failed e :
    os_path_exists os file = true →
    answer_at 0 ans = None →
    answer_at 1 ans = None →
    answer_at 2 ans = None →
    answer_at 3 ans = Some e →
    let sf1 := put_file (stage_folder PATH_TODO) file sf in
    let sf2 := put_file (stage_folder PATH_DONE) file sf1 in
    turn sf ans
      (Raise (Err e), start sf2 (drop 4 ans),
       upload_prefix sf ++
       [ ran put_todo None sf1;
         printed (MsgLoading table) sf1;
         ran (copy_sql table) None sf1;
         printed MsgLoadSuccessful sf1;
         printed (MsgMoving (stage_folder PATH_DONE)) sf1;
         ran put_done None sf2;
         ran remove (Some e) sf2 ] ++
       load_failed_report table e sf2)
| turn_loaded :
    os_path_exists os file = true →
    answer_at 0 ans = None →
    answer_at 1 ans = None →
    answer_at 2 ans = None →
    answer_at 3 ans = None →
    let sf1 := put_file (stage_folder PATH_TODO) file sf in
    let sf2 := put_file (stage_folder PATH_DONE) file sf1 in
    let sf3 := remove_file (todo_path table) sf2 in
    turn sf ans
      (Ok tt, start sf3 (drop 4 ans),
       upload_prefix sf ++
       [ ran put_todo None sf1;
         printed (MsgLoading table) sf1;
         ran (copy_sql table) None sf1;
         printed MsgLoadSuccessful sf1;
         printed (MsgMoving (stage_folder PATH_DONE)) sf1;
         ran put_done None sf2;
         ran remove None sf3 ]).

End Turn.

(** ** The loop and the whole run, as relations

    A run ends in one of five ways: [connect] raises; [os.path.abspath]
    raises, with the connection open; [USE SCHEMA] or [CREATE STAGE]
    raises; or the loop is entered. *)

Section Runs.

Variable os : host.

Inductive turns (abs_path : string)
  : list string → world → result unit * world * list entry → Prop :=
| turns_done w :
    turns abs_path [] w (Ok tt, w, [])
| turns_stop table rest w r w' tr :
    turn os abs_path table (wh w) (answers w) (Raise r, w', tr) →
    turns abs_path (table :: rest) w (Raise r, w', tr)
| turns_next table rest w w' tr x :
    turn os abs_path table (wh w) (answers w) (Ok tt, w', tr) →
    turns abs_path rest w' x →
    turns abs_path (table :: rest) w (res x, final x, tr ++ out x).

(** How [main] ends once its [try] block has left with result [r] in a
    warehouse [sf]: the handler of [except Exception], then [finally]. *)
Definition ending (r : result unit) (sf : snowflake)
    : result unit * list entry :=
  let closing := [ {| ev := EClose; after := sf |};
                   printed MsgFinished sf ] in
  match r with
  | Raise (Err e) =>
      if is_Exception e
      then (Raise (SystemExit 1), printed (MsgCriticalError e) sf :: closing)
      else (r, closing)
  | _ => (r, closing)
  end.

Definition opening (cfg : config) (r : option error) (sf : snowflake)
    : list entry :=
  [ printed (MsgConnecting (tc_account (TARGET_CONFIG cfg))) sf;
    {| ev := EConnect (TARGET_CONFIG cfg) r; after := sf |} ].

Definition use_schema (cfg : config) : stmt :=
  UseSchema (tc_database (TARGET_CONFIG cfg)) (tc_schema (TARGET_CONFIG cfg)).

Definition ensure_stage (sf : snowflake) : snowflake :=
  if bool_decide (STAGE_NAME ∈ stages sf) then sf
  else create_stage STAGE_NAME sf.

Inductive run (cfg : config) (sf : snowflake) (ans : list (option error))
  : result unit * world * list entry → Prop :=
| run_connect_failed e :
    answer_at 0 ans = Some e →
    run cfg sf ans
      (Raise (Err e), start sf (drop 1 ans), opening cfg (Some e) sf)
| run_abspath_failed :
    answer_at 0 ans = None →
    os_path_abspath os (OUTPUT_DIR_DATA cfg) = None →
    run cfg sf ans
      (Raise (Err OtherError), start sf (drop 1 ans),
       opening cfg None sf ++ [ {| ev := ECursor; after := sf |} ])
| run_schema_failed abs_path e :
    os_path_abspath os (OUTPUT_DIR_DATA cfg) = Some abs_path →
    answer_at 0 ans = None →
    answer_at 1 ans = Some e →
    run cfg sf ans
      ((ending (Raise (Err e)) sf).1, start sf (drop 2 ans),
       opening cfg None sf ++
       [ {| ev := ECursor; after := sf |};
         ran (use_schema cfg) (Some e) sf ] ++
       (ending (Raise (Err e)) sf).2)
| run_stage_failed abs_path e :
    os_path_abspath os (OUTPUT_DIR_DATA cfg) = Some abs_path →
    answer_at 0 ans = None →
    answer_at 1 ans = None →
    answer_at 2 ans = Some e →
    run cfg sf ans
      ((ending (Raise (Err e)) sf).1, start sf (drop 3 ans),
       opening cfg None sf ++
       [ {| ev := ECursor; after := sf |};
         ran (use_schema cfg) None sf;
         printed MsgCreatingStage sf;
         ran (CreateStage true STAGE_NAME csv_stage_format) (Some e) sf ] ++
       (ending (Raise (Err e)) sf).2)
| run_loop abs_path x :
    os_path_abspath os (OUTPUT_DIR_DATA cfg) = Some abs_path →
    answer_at 0 ans = None →
    answer_at 1 ans = None →
    answer_at 2 ans = None →
    let sf' := ensure_stage sf in
    turns abs_path (DATA_TABLES_TO_EXPORT cfg) (start sf' (drop 3 ans)) x →
    run cfg sf ans
      ((ending (res x) (wh (final x))).1, final x,
       opening cfg None sf ++
       [ {| ev := ECursor; after := sf |};
         ran (use_schema cfg) None sf;
         printed MsgCreatingStage sf;
         ran (CreateStage true STAGE_NAME csv_stage_format) None sf' ] ++
       out x ++ (ending (res x) (wh (final x))).2).

End Runs.

(** ** The statements the script can send *)

(** The four statements of a turn that finds its file, in order. *)
Definition transfers (abs_path table : string) : list stmt :=
  [ Put (local_file abs_path table) (stage_folder PATH_TODO) true;
    copy_sql table;
    Put (local_file abs_path table) (stage_folder PATH_DONE) true;
    Remove (todo_path table) ].

Inductive issued (os : host) (cfg : config) : stmt → Prop :=
| issued_use_schema :
    issued os cfg (use_schema cfg)
| issued_create_stage :
    issued os cfg (CreateStage true STAGE_NAME csv_stage_format)
| issued_transfer abs_path table s :
    os_path_abspath os (OUTPUT_DIR_DATA cfg) = Some abs_path →
    table ∈ DATA_TABLES_TO_EXPORT cfg →
    os_path_exists os (local_file abs_path table) = true →
    s ∈ transfers abs_path table →
    issued os cfg s.

(** What a stretch of the loop prints when none of its tables has a local
    file. *)
Definition skips (tables : list string) (sf : snowflake) : list entry :=
  (λ table, printed (MsgSkipping table) sf) <$> tables.

(** The configuration with another list of tables. *)
Definition with_tables (cfg : config) (tables : list string) : config :=
  {| TARGET_CONFIG := TARGET_CONFIG cfg;
     DATA_TABLES_TO_EXPORT := tables;
     OUTPUT_DIR_DATA := OUTPUT_DIR_DATA cfg |}.

(** ** Vocabulary of the further properties *)

(** A call into the connector that raised. *)
Definition is_failure (e : event) : bool :=
  match e with
  | EExecute _ (Some _) | EConnect _ (Some _) => true
  | _ => false
  end.

(** The exception a call into the connector raised. *)
Definition raised_by (e : event) : option error :=
  match e with
  | EExecute _ r | EConnect _ r => r
  | _ => None
  end.

(** The events of a run that goes its way: no call that raised, no
    critical-error message, no closing of the connection. *)
Definition calm (e : event) : bool :=
  match e with
  | EExecute _ (Some _) | EConnect _ (Some _) => false
  | EClose => false
  | EPrint (MsgCriticalError _) => false
  | _ => true
  end.

(** The two messages of the handler of [ProgrammingError] (lines 93-94). *)
Definition is_report (e : event) : bool :=
  match e with
  | EPrint (MsgLoadFailed _) | EPrint (MsgFileRemains _) => true
  | _ => false
  end.

(** What follows a statement that raised [e] in the [try] of [main]: the
    handler of [except Exception] when [e] is one, then [finally]. *)
Definition aftermath (e : error) : list event :=
  (if is_Exception e then [ EPrint (MsgCriticalError e) ] else []) ++
  [ EClose; EPrint MsgFinished ].

(** The configured tables that have a local file, in the order of the
    configuration, and the statements of their turns. *)
Definition present (os : host) (abs_path : string) (tables : list string)
    : list string :=
  filter (λ t, Is_true (os_path_exists os (local_file abs_path t))) tables.

Definition planned (os : host) (abs_path : string) (tables : list string)
    : list stmt :=
  concat (transfers abs_path <$> present os abs_path tables).

(** The files of the stage after the tables of [loaded] have been moved. *)
Definition archived (loaded : list string) (fs : gset string) : gset string :=
  (fs ∖ list_to_set (todo_path <$> loaded))
    ∪ list_to_set (done_path <$> loaded).

(** * Properties *)

(** ** Paths and stage paths *)

Module PathFacts.
Import Path.

Lemma append_cons c a b : String c a +:+ b = String c (a +:+ b).
Proof. reflexivity. Qed.

Lemma append_assoc a b c : (a +:+ b) +:+ c = a +:+ (b +:+ c).
Proof. induction a as [|x a IH]; [done|]. by rewrite !append_cons, IH. Qed.

Lemma append_length a b :
  String.length (a +:+ b) = (String.length a + String.length b)%nat.
Proof. induction a as [|x a IH]; [done|]. rewrite append_cons. simpl. by rewrite IH. Qed.

Lemma append_inv_tail a b s : a +:+ s = b +:+ s → a = b.
Proof.
  revert b. induction a as [|x a IH]; intros [|y b] H.
  - done.
  - apply (f_equal String.length) in H.
    rewrite ?append_cons, ?append_length in H. simpl in H.
    rewrite ?append_length in H. lia.
  - apply (f_equal String.length) in H.
    rewrite ?append_cons, ?append_length in H. simpl in H.
    rewrite ?append_length in H. lia.
  - rewrite !append_cons in H. injection H as -> H. f_equal. by apply IH.
Qed.

Lemma append_inv_head s a b : s +:+ a = s +:+ b → a = b.
Proof.
  induction s as [|x s IH]; [done|].
  rewrite !append_cons. intros H. injection H as H. by apply IH.
Qed.

Lemma has_slash_app a b : has_slash (a +:+ b) = has_slash a || has_slash b.
Proof. induction a as [|c a IH]; simpl; [done|]. by rewrite IH, orb_assoc. Qed.

Lemma basename_plain s : has_slash s = false → basename s = s.
Proof.
  destruct s as [|c s]; simpl; [done|].
  intros [Hc Hs]%orb_false_elim. by rewrite Hs, Hc.
Qed.

Lemma basename_after_slash a f :
  has_slash f = false → basename (a +:+ String slash f) = f.
Proof.
  intros Hf. induction a as [|c a IH]; simpl.
  - by rewrite Hf.
  - rewrite has_slash_app. simpl. by rewrite orb_true_r.
Qed.

Lemma endswith_slash_split a :
  endswith_slash a = true → ∃ a', a = a' +:+ String slash EmptyString.
Proof.
  induction a as [|c a IH]; simpl; [done|].
  destruct a as [|c' a].
  - unfold is_slash. intros ->%bool_decide_eq_true. by exists EmptyString.
  - intros [a' Ha']%IH. exists (String c a'). by rewrite append_cons, <- Ha'.
Qed.

Lemma startswith_plain s : has_slash s = false → startswith_slash s = false.
Proof. destruct s; simpl; [done|]. by intros [? ?]%orb_false_elim. Qed.

Lemma basename_join a f : has_slash f = false → basename (join a f) = f.
Proof.
  intros Hf. unfold join. rewrite (startswith_plain _ Hf).
  case_bool_decide as Ha; cbn [orb].
  - subst a. simpl. by apply basename_plain.
  - destruct (endswith_slash a) eqn:He.
    + apply endswith_slash_split in He as [a' ->].
      rewrite append_assoc. simpl. by apply basename_after_slash.
    + by apply basename_after_slash.
Qed.

End PathFacts.

Lemma filename_of_inj t t' : filename_of t = filename_of t' → t = t'.
Proof. apply PathFacts.append_inv_tail. Qed.

Lemma filename_of_plain t : plain t → Path.has_slash (filename_of t) = false.
Proof.
  unfold plain, filename_of. intros Ht. by rewrite PathFacts.has_slash_app, Ht.
Qed.

Lemma basename_local abs_path t :
  plain t → Path.basename (local_file abs_path t) = filename_of t.
Proof.
  intros Ht. unfold local_file.
  apply PathFacts.basename_join. by apply filename_of_plain.
Qed.

Lemma staged_local abs_path folder t :
  plain t →
  staged folder (local_file abs_path t) = stage_folder folder +:+ filename_of t.
Proof. intros Ht. unfold staged. by rewrite basename_local. Qed.

Lemma todo_path_inj t t' : todo_path t = todo_path t' → t = t'.
Proof. by intros H%PathFacts.append_inv_head%filename_of_inj. Qed.

Lemma done_path_inj t t' : done_path t = done_path t' → t = t'.
Proof. by intros H%PathFacts.append_inv_head%filename_of_inj. Qed.

Lemma folders_apart a b : stage_folder PATH_TODO +:+ a ≠ stage_folder PATH_DONE +:+ b.
Proof.
  intros H. cbv in H. congruence.
Qed.

Lemma todo_path_not_done t t' : todo_path t ≠ done_path t'.
Proof. apply folders_apart. Qed.


(** ** Running the script by computation *)

Ltac run_script :=
  cbv [mbind M_bind mret M_ret print log execute connect cursor close
       next_answer get_wh set_wh raise exit try_except try_finally run_stmt
       answers wh start copy_sql get_connection];
  cbn [head tail default from_option id is_ProgrammingError is_Exception
       app fst snd].

Lemma start_eta w : start (wh w) (answers w) = w.
Proof. by destruct w. Qed.

Lemma load_table_turn_start os abs_path table sf ans :
  turn os abs_path table sf ans (load_table os abs_path table (start sf ans)).
Proof.
  unfold load_table.
  destruct (os_path_exists os (Path.join abs_path (filename_of table)))
    eqn:Hex; cbn [negb].
  2:{ by apply turn_skipped. }
  destruct ans as [|[e|] ans]; run_script.
  - by apply turn_loaded.
  - by apply turn_upload_failed.
  - destruct ans as [|[e|] ans]; run_script.
    + by apply turn_loaded.
    + destruct e; by apply turn_load_failed.
    + destruct ans as [|[e|] ans]; run_script.
      * by apply turn_loaded.
      * destruct e; by apply turn_archive_failed.
      * destruct ans as [|[e|] ans]; run_script.
        -- by apply turn_loaded.
        -- destruct e; by apply turn_remove_failed.
        -- by apply turn_loaded.
Qed.

Lemma load_table_turn os abs_path table w :
  turn os abs_path table (wh w) (answers w) (load_table os abs_path table w).
Proof. rewrite <- (start_eta w) at 3. apply load_table_turn_start. Qed.

Lemma for_tables_cons os abs_path table rest w :
  for_tables os abs_path (table :: rest) w =
  match load_table os abs_path table w with
  | (Ok _, w', tr) =>
      let x := for_tables os abs_path rest w' in (res x, final x, tr ++ out x)
  | (Raise r, w', tr) => (Raise r, w', tr)
  end.
Proof.
  cbn [for_tables]. unfold mbind, M_bind.
  destruct (load_table os abs_path table w) as [[[[]|r] w'] tr]; [|done].
  by destruct (for_tables os abs_path rest w') as [[r' w''] tr'].
Qed.

Lemma for_tables_turns os abs_path tables w :
  turns os abs_path tables w (for_tables os abs_path tables w).
Proof.
  revert w. induction tables as [|table rest IH]; intros w.
  - apply turns_done.
  - rewrite for_tables_cons.
    pose proof (load_table_turn os abs_path table w) as Ht.
    destruct (load_table os abs_path table w) as [[[[]|r] w'] tr].
    + cbv zeta. eapply turns_next; [exact Ht | apply IH].
    + by apply turns_stop.
Qed.

Lemma main_run_start os cfg sf ans :
  run os cfg sf ans (main os cfg (start sf ans)).
Proof.
  unfold main, main_try, abspath.
  destruct (os_path_abspath os (OUTPUT_DIR_DATA cfg)) as [abs_path|] eqn:Hd.
  2:{ destruct ans as [|[e|] ans]; run_script.
      - by apply run_abspath_failed.
      - by apply run_connect_failed.
      - by apply run_abspath_failed. }
  assert (Hloop : ∀ ans',
    answer_at 0 ans = None → answer_at 1 ans = None → answer_at 2 ans = None →
    drop 3 ans = ans' →
    ∀ x, x = for_tables os abs_path
               (DATA_TABLES_TO_EXPORT cfg) (start (ensure_stage sf) ans') →
    run os cfg sf ans
      ((ending (res x) (wh (final x))).1, final x,
       opening cfg None sf ++
       [ {| ev := ECursor; after := sf |};
         ran (use_schema cfg) None sf;
         printed MsgCreatingStage sf;
         ran (CreateStage true STAGE_NAME csv_stage_format) None
             (ensure_stage sf) ] ++
       out x ++ (ending (res x) (wh (final x))).2)).
  { intros ans' H0 H1 H2 <- x ->. apply (run_loop _ _ _ _ abs_path); [done..|].
    apply for_tables_turns. }
  destruct ans as [|[e|] ans]; run_script.
  2:{ by apply run_connect_failed. }
  - specialize (Hloop [] eq_refl eq_refl eq_refl eq_refl _ eq_refl).
    unfold ensure_stage, start in Hloop.
    destruct (bool_decide (STAGE_NAME ∈ stages sf));
      destruct (for_tables _ _ _ _) as [[[[]|[[]|c]] w'] tr];
      (refine (eq_rect _ (run os cfg sf _) Hloop _ _); cbn;
       by rewrite <- ?app_assoc).
  - destruct ans as [|[e|] ans]; run_script.
    + specialize (Hloop [] eq_refl eq_refl eq_refl eq_refl _ eq_refl).
      unfold ensure_stage, start in Hloop.
      destruct (bool_decide (STAGE_NAME ∈ stages sf));
        destruct (for_tables _ _ _ _) as [[[[]|[[]|c]] w'] tr];
        (refine (eq_rect _ (run os cfg sf _) Hloop _ _); cbn;
       by rewrite <- ?app_assoc).
    + pose proof (run_schema_failed os cfg sf (None :: Some e :: ans)
                    abs_path e Hd eq_refl eq_refl) as Hr.
      by destruct e.
    + destruct ans as [|[e|] ans]; run_script.
      * specialize (Hloop [] eq_refl eq_refl eq_refl eq_refl _ eq_refl).
        unfold ensure_stage, start in Hloop.
        destruct (bool_decide (STAGE_NAME ∈ stages sf));
          destruct (for_tables _ _ _ _) as [[[[]|[[]|c]] w'] tr];
          (refine (eq_rect _ (run os cfg sf _) Hloop _ _); cbn;
       by rewrite <- ?app_assoc).
      * pose proof (run_stage_failed os cfg sf
                      (None :: None :: Some e :: ans) abs_path e
                      Hd eq_refl eq_refl eq_refl) as Hr.
        by destruct e.
      * specialize (Hloop ans eq_refl eq_refl eq_refl eq_refl _ eq_refl).
        unfold ensure_stage, start in Hloop.
        destruct (bool_decide (STAGE_NAME ∈ stages sf));
          destruct (for_tables _ _ _ _) as [[[[]|[[]|c]] w'] tr];
          (refine (eq_rect _ (run os cfg sf _) Hloop _ _); cbn;
       by rewrite <- ?app_assoc).
Qed.

Lemma main_run os cfg w : run os cfg (wh w) (answers w) (main os cfg w).
Proof. rewrite <- (start_eta w) at 3. apply main_run_start. Qed.

(** ** What one turn sends *)

Lemma executed_eq {A} (r : result A) w tr :
  executed (r, w, tr) = omap statement_of (ev <$> tr).
Proof. reflexivity. Qed.

Lemma executed_elem {A} (x : result A * world * list entry) s r :
  EExecute s r ∈ events x → s ∈ executed x.
Proof.
  intros Hin. unfold executed. apply list_elem_of_omap.
  by exists (EExecute s r).
Qed.

Lemma load_failed_report_executed table e sf :
  omap statement_of (ev <$> load_failed_report table e sf) = [].
Proof. by destruct e. Qed.

(** A turn sends a prefix of its four statements, all of them when it
    finds the file and ends well, none when the file is missing. *)
Lemma turn_executed os abs_path table sf ans x :
  turn os abs_path table sf ans x →
  executed x `prefix_of` transfers abs_path table ∧
  (executed x ≠ [] →
   os_path_exists os (local_file abs_path table) = true) ∧
  (os_path_exists os (local_file abs_path table) = true →
   res x = Ok tt → executed x = transfers abs_path table).
Proof.
  unfold transfers.
  destruct 1; rewrite executed_eq;
    rewrite ?fmap_app, ?omap_app, ?load_failed_report_executed; cbn;
    (split; [|split]); try done; try congruence.
  - apply prefix_nil.
  - by apply prefix_cons, prefix_nil.
  - by do 2 apply prefix_cons; apply prefix_nil.
  - by do 3 apply prefix_cons; apply prefix_nil.
Qed.

Lemma turns_executed os abs_path tables w x :
  turns os abs_path tables w x →
  ∀ s, s ∈ executed x →
    ∃ table, table ∈ tables ∧
      os_path_exists os (local_file abs_path table) = true ∧
      s ∈ transfers abs_path table.
Proof.
  induction 1 as [w|table rest w r w' tr Ht|table rest w w' tr x Ht Hx IH];
    intros s Hs.
  - by apply elem_of_nil in Hs.
  - apply turn_executed in Ht as (Hpre & Hex & _).
    exists table. split; [by left|]. split.
    + apply Hex. intros Hnil. rewrite Hnil in Hs. by apply elem_of_nil in Hs.
    + destruct Hpre as [k Hk]. rewrite Hk. apply elem_of_app. by left.
  - rewrite executed_eq, fmap_app, omap_app in Hs.
    apply elem_of_app in Hs as [Hs|Hs].
    + apply turn_executed in Ht as (Hpre & Hex & _).
      rewrite executed_eq in Hpre, Hex.
      exists table. split; [by left|]. split.
      * apply Hex. intros Hnil. rewrite Hnil in Hs. by apply elem_of_nil in Hs.
      * destruct Hpre as [k Hk]. rewrite Hk. apply elem_of_app. by left.
    + destruct (IH s Hs) as (t & Ht' & Hex & Hin).
      exists t. split; [by right|done].
Qed.

Lemma ending_executed r sf : omap statement_of (ev <$> (ending r sf).2) = [].
Proof. by destruct r as [|[[]|]]. Qed.

(** Every statement a run sends is one of the script's. *)
Lemma run_issued os cfg sf ans x :
  run os cfg sf ans x → ∀ s, s ∈ executed x → issued os cfg s.
Proof.
  destruct 1 as [e H0|H0 Hd|abs_path e Hd H0 H1|abs_path e Hd H0 H1 H2
                 |abs_path x Hd H0 H1 H2 sf' Hx]; intros s;
    rewrite executed_eq;
    rewrite ?fmap_app, ?omap_app, ?ending_executed; cbn;
    rewrite ?elem_of_cons, ?elem_of_app.
  - by intros ?%elem_of_nil.
  - by intros ?%elem_of_nil.
  - intros [->|?%elem_of_nil]; [constructor|done].
  - intros [->|[->|?%elem_of_nil]]; [constructor..|done].
  - intros [->|[->|[Hs|?%elem_of_nil]]]; [constructor..| |done].
    destruct (turns_executed _ _ _ _ _ Hx s Hs) as (t & Ht & Hex & Hin).
    by eapply issued_transfer.
Qed.

(** ** The bulk-load command *)

(** C3 (the code against the claim): the [COPY INTO] the script builds for
    a table carries [ON_ERROR = 'CONTINUE'], under which no number of
    rejected rows makes the statement raise; the tolerance has no bound. *)
Theorem copy_sql_tolerates_any_number_of_bad_rows table bad_rows :
  ∃ from ff purge,
    copy_sql table = CopyInto table from ff CONTINUE purge ∧
    copy_raises_on CONTINUE bad_rows = false.
Proof. by eexists _, _, _. Qed.

(** C5: every [COPY INTO] that a run sends is the command of one of the
    configured tables, reading that table's file under [not_processed]; it
    skips one header row, reads fields optionally enclosed in double
    quotes, takes [NULL], [nan] and [\N] for nulls, goes on over rejected
    rows, and does not purge the staged file. *)
Theorem copy_command_options os cfg w table from ff on_err purge :
  CopyInto table from ff on_err purge ∈ executed (main os cfg w) →
  table ∈ DATA_TABLES_TO_EXPORT cfg ∧
  from = todo_path table ∧
  ff_type ff = "CSV" ∧
  ff_skip_header ff = 1%nat ∧
  ff_field_optionally_enclosed_by ff = Some double_quote ∧
  ff_null_if ff = ["NULL"; "nan"; "\N"] ∧
  on_err = CONTINUE ∧
  (∀ bad_rows, copy_raises_on on_err bad_rows = false) ∧
  purge = false.
Proof.
  intros Hin. apply (run_issued _ _ _ _ _ (main_run os cfg w)) in Hin.
  inversion Hin as [| |abs_path t s Hd Ht Hex Hs]; subst.
  unfold transfers in Hs.
  rewrite !elem_of_cons, elem_of_nil in Hs.
  destruct Hs as [Hs|[Hs|[Hs|[Hs|[]]]]]; try discriminate Hs.
  unfold copy_sql in Hs. injection Hs as -> -> -> -> ->.
  by repeat split.
Qed.

Lemma copy_command_options_witness :
  CopyInto "A" (todo_path "A") csv_copy_format CONTINUE false
    ∈ executed (main (demo_host ["/work/out/A.csv.gz"]) (demo_config ["A"])
                     (start empty_snowflake [])) ∧
  ff_skip_header csv_copy_format = 1%nat ∧
  ff_null_if csv_copy_format = ["NULL"; "nan"; "\N"].
Proof.
  assert (H : CopyInto "A" (todo_path "A") csv_copy_format CONTINUE false
    ∈ executed (main (demo_host ["/work/out/A.csv.gz"]) (demo_config ["A"])
                     (start empty_snowflake []))).
  { refine (bool_decide_unpack _ _). vm_compute. exact I. }
  split; [exact H|].
  destruct (copy_command_options _ _ _ _ _ _ _ _ H)
    as (_ & _ & _ & Hskip & _ & Hnull & _).
  exact (conj Hskip Hnull).
Defined.

(** ** Failure to connect *)

(** C8: when [connect] raises, the exception leaves [main] as it is: the
    trace holds the announcement and the failed call and nothing else, so
    neither the critical-error handler nor the closing of the connection
    has run, and the warehouse is untouched. *)
Theorem connect_failure_propagates os cfg w e :
  answer_at 0 (answers w) = Some e →
  let x := main os cfg w in
  res x = Raise (Err e) ∧
  events x = [ EPrint (MsgConnecting (tc_account (TARGET_CONFIG cfg)));
               EConnect (TARGET_CONFIG cfg) (Some e) ] ∧
  (∀ e', EPrint (MsgCriticalError e') ∉ events x) ∧
  count is_close (events x) = 0%nat ∧
  wh (final x) = wh w.
Proof.
  intros He x. subst x.
  destruct (main_run os cfg w) as [e' H0| | | |]; try congruence.
  assert (e' = e) as -> by congruence.
  repeat split; try done.
  intros e' Hin. cbn in Hin.
  rewrite !elem_of_cons, elem_of_nil in Hin. by destruct Hin as [|[|]].
Qed.

Lemma connect_failure_propagates_witness :
  let x := main (demo_host []) (demo_config ["A"])
                (start empty_snowflake [Some OtherError]) in
  res x = Raise (Err OtherError) ∧ count is_close (events x) = 0%nat.
Proof.
  destruct (connect_failure_propagates (demo_host []) (demo_config ["A"])
              (start empty_snowflake [Some OtherError]) OtherError eq_refl)
    as (Hres & _ & _ & Hclose & _).
  exact (conj Hres Hclose).
Defined.

(** ** Counting events *)

Lemma count_app p tr1 tr2 :
  count p (tr1 ++ tr2) = (count p tr1 + count p tr2)%nat.
Proof. unfold count. by rewrite filter_app, length_app. Qed.

Lemma count_cons p e tr :
  count p (e :: tr) = ((if p e then 1 else 0) + count p tr)%nat.
Proof.
  unfold count. destruct (p e) eqn:He.
  - rewrite filter_cons_True; [done | by rewrite He].
  - rewrite filter_cons_False; [done | rewrite He; by intros []].
Qed.

Lemma count_none p tr : Forall (λ e, p e = false) tr → count p tr = 0%nat.
Proof.
  induction 1 as [|e tr He _ IH]; [done|]. by rewrite count_cons, He, IH.
Qed.

(** The loop only prints and sends statements. *)
Lemma turn_kinds os abs_path table sf ans x :
  turn os abs_path table sf ans x →
  Forall (λ e, is_connect e = false ∧ is_close e = false) (events x).
Proof.
  destruct 1; unfold events, out; cbn [snd];
    rewrite ?fmap_app, ?Forall_app; repeat split;
    try (destruct e; cbn); repeat constructor.
Qed.

Lemma turns_kinds os abs_path tables w x :
  turns os abs_path tables w x →
  Forall (λ e, is_connect e = false ∧ is_close e = false) (events x).
Proof.
  induction 1 as [w|table rest w r w' tr Ht|table rest w w' tr x Ht Hx IH].
  - constructor.
  - by apply turn_kinds in Ht.
  - apply turn_kinds in Ht. unfold events, out in *. cbn [snd] in *.
    rewrite fmap_app, Forall_app. by split.
Qed.

Lemma turns_count os abs_path tables w x :
  turns os abs_path tables w x →
  count is_connect (events x) = 0%nat ∧ count is_close (events x) = 0%nat.
Proof.
  intros H%turns_kinds.
  split; apply count_none; eapply Forall_impl; try exact H; by intros e [].
Qed.

Lemma ending_count r sf :
  count is_connect (ev <$> (ending r sf).2) = 0%nat ∧
  count is_close (ev <$> (ending r sf).2) = 1%nat.
Proof. by destruct r as [|[[]|]]. Qed.

Lemma ending_events r sf :
  ∃ mid, ev <$> (ending r sf).2 = mid ++ [EClose; EPrint MsgFinished].
Proof.
  destruct r as [|[[]|]];
    first [ by exists [] | by eexists [_] ].
Qed.

(** ** The connection *)

(** C7, as the code has it: in every run the script tries to connect
    exactly once, before any other call.  When that call returns a
    connection and [os.path.abspath] (line 28) returns, the connection is
    closed exactly once, at the end of the run, whether the run ends well
    or not.  When [connect] raises there is no connection, and when
    [os.path.abspath] raises the connection is open: in both cases [close]
    is never called. *)
Theorem connection_closed_once os cfg w :
  let x := main os cfg w in
  count is_connect (events x) = 1%nat ∧
  (∃ r rest, events x =
     EPrint (MsgConnecting (tc_account (TARGET_CONFIG cfg))) ::
     EConnect (TARGET_CONFIG cfg) r :: rest) ∧
  (∀ abs_path,
     answer_at 0 (answers w) = None →
     os_path_abspath os (OUTPUT_DIR_DATA cfg) = Some abs_path →
     count is_close (events x) = 1%nat ∧
     ∃ mid, events x =
       EPrint (MsgConnecting (tc_account (TARGET_CONFIG cfg))) ::
       EConnect (TARGET_CONFIG cfg) None ::
       mid ++ [EClose; EPrint MsgFinished]) ∧
  (answer_at 0 (answers w) = None →
   os_path_abspath os (OUTPUT_DIR_DATA cfg) = None →
   res x = Raise (Err OtherError) ∧
   events x =
     [ EPrint (MsgConnecting (tc_account (TARGET_CONFIG cfg)));
       EConnect (TARGET_CONFIG cfg) None; ECursor ] ∧
   count is_close (events x) = 0%nat) ∧
  (∀ e, answer_at 0 (answers w) = Some e →
        count is_close (events x) = 0%nat).
Proof.
  intros x. subst x.
  destruct (main_run os cfg w)
    as [e H0|H0 Hd|abs e Hd H0 H1|abs e Hd H0 H1 H2|abs x Hd H0 H1 H2 sf' Hx];
    unfold events, out; cbn [snd];
    rewrite ?fmap_app; cbn [fmap list_fmap opening printed ran ev app].
  - split; [done|]. split; [by eexists _, _|].
    split; [congruence|]. split; [congruence|]. done.
  - split; [done|]. split; [by eexists _, _|].
    split; [congruence|]. split; [done|]. congruence.
  - destruct (ending_count (Raise (Err e)) (wh w)) as [Hc1 Hc2].
    destruct (ending_events (Raise (Err e)) (wh w)) as [mid Hmid].
    split; [|split; [by eexists _, _|split; [intros _ _ _; split|]]].
    + do 4 rewrite count_cons. by rewrite Hc1.
    + do 4 rewrite count_cons. by rewrite Hc2.
    + rewrite Hmid. by eexists (_ :: _ :: mid).
    + split; congruence.
  - destruct (ending_count (Raise (Err e)) (wh w)) as [Hc1 Hc2].
    destruct (ending_events (Raise (Err e)) (wh w)) as [mid Hmid].
    split; [|split; [by eexists _, _|split; [intros _ _ _; split|]]].
    + do 6 rewrite count_cons. by rewrite Hc1.
    + do 6 rewrite count_cons. by rewrite Hc2.
    + rewrite Hmid. by eexists (_ :: _ :: _ :: _ :: mid).
    + split; congruence.
  - destruct (ending_count (res x) (wh (final x))) as [Hc1 Hc2].
    destruct (ending_events (res x) (wh (final x))) as [mid Hmid].
    destruct (turns_count _ _ _ _ _ Hx) as [Ht1 Ht2].
    unfold events, out in Ht1, Ht2.
    split; [|split; [by eexists _, _|split; [intros _ _ _; split|]]].
    + do 6 rewrite count_cons. by rewrite count_app, Hc1, Ht1.
    + do 6 rewrite count_cons. by rewrite count_app, Hc2, Ht2.
    + rewrite Hmid. eexists (_ :: _ :: _ :: _ :: _ ++ mid).
      cbn [app]. do 6 f_equal. apply app_assoc.
    + split; congruence.
Qed.

Lemma connection_closed_once_witness :
  let x := main (demo_host ["/work/out/A.csv.gz"]) (demo_config ["A"; "B"])
                (start empty_snowflake [None; None; None; None; Some OtherError]) in
  count is_connect (events x) = 1%nat ∧ count is_close (events x) = 1%nat.
Proof.
  destruct (connection_closed_once (demo_host ["/work/out/A.csv.gz"])
              (demo_config ["A"; "B"])
              (start empty_snowflake [None; None; None; None; Some OtherError]))
    as (Hc & _ & Hcl & _).
  exact (conj Hc (proj1 (Hcl "/work/out" eq_refl eq_refl))).
Defined.

(** C7 as stated fails on the run in which [connect] raises: the script
    has tried to connect once, and [close] is never called. *)
Lemma closed_once_fails_when_connect_raises :
  let x := main (demo_host ["/work/out/A.csv.gz"]) (demo_config ["A"])
                (start empty_snowflake [Some OtherError]) in
  res x = Raise (Err OtherError) ∧
  count is_connect (events x) = 1%nat ∧
  count is_close (events x) = 0%nat.
Proof. vm_compute. done. Qed.

(** It fails as well when the current directory is gone: the connection
    has been opened and the cursor obtained when [os.path.abspath] raises
    (line 28), outside the [try], and the run ends, with status 1, on a
    connection that was never closed. *)
Lemma connection_left_open_when_abspath_raises :
  let x := main stranded_host (demo_config ["A"])
                (start empty_snowflake []) in
  events x = [ EPrint (MsgConnecting "acme");
               EConnect demo_target None; ECursor ] ∧
  count is_close (events x) = 0%nat ∧
  exit_status (res x) = 1.
Proof. vm_compute. done. Qed.

(** ** Tables without a local file *)

Lemma answer_at_no_fault n k ans :
  no_fault (take n ans) → (k < n)%nat → answer_at k ans = None.
Proof.
  intros Hnf Hk. unfold answer_at.
  destruct (ans !! k) as [a|] eqn:Ha; [|done].
  cbn. eapply (Forall_lookup_1 _ _ k a) in Hnf; [done|].
  by rewrite lookup_take_lt.
Qed.

Lemma answer_at_all_no_fault k ans : no_fault ans → answer_at k ans = None.
Proof.
  intros Hnf. apply (answer_at_no_fault (S k)); [|lia].
  by apply Forall_take.
Qed.

Lemma turn_missing os abs_path table sf ans x :
  turn os abs_path table sf ans x →
  os_path_exists os (local_file abs_path table) = false →
  x = (Ok tt, start sf ans, [ printed (MsgSkipping table) sf ]).
Proof. destruct 1; [done|congruence..]. Qed.

Lemma turns_all_missing os abs_path tables w x :
  turns os abs_path tables w x →
  Forall (λ t, os_path_exists os (local_file abs_path t) = false) tables →
  x = (Ok tt, w, skips tables (wh w)).
Proof.
  induction 1 as [w|table rest w r w' tr Ht|table rest w w' tr x Ht Hx IH];
    intros Hmiss.
  - done.
  - apply Forall_cons in Hmiss as [Hm _].
    by apply (turn_missing _ _ _ _ _ _ Ht) in Hm.
  - apply Forall_cons in Hmiss as [Hm Hrest].
    apply (turn_missing _ _ _ _ _ _ Ht) in Hm.
    injection Hm as -> ->. rewrite start_eta in *.
    by rewrite (IH Hrest).
Qed.

Lemma skips_events tables sf :
  ev <$> skips tables sf = (λ t, EPrint (MsgSkipping t)) <$> tables.
Proof. unfold skips. by rewrite <- list_fmap_compose. Qed.

Lemma skips_executed tables :
  omap statement_of ((λ t, EPrint (MsgSkipping t)) <$> tables) = [].
Proof. induction tables as [|t l IH]; [done|]. by cbn. Qed.

Lemma skips_count p tables :
  (∀ m, p (EPrint m) = false) →
  count p ((λ t, EPrint (MsgSkipping t)) <$> tables) = 0%nat.
Proof.
  intros Hp. apply count_none, Forall_fmap, Forall_forall. intros t _. apply Hp.
Qed.

Lemma ensure_stage_spec sf :
  STAGE_NAME ∈ stages (ensure_stage sf) ∧ files (ensure_stage sf) = files sf.
Proof.
  unfold ensure_stage. case_bool_decide; [done|].
  split; [set_solver|done].
Qed.

(** C10: when no configured table has a local file in the output
    directory, as line 28 resolves it (in particular when the list is
    empty), no run sends a [PUT], a [COPY INTO] or a [REMOVE], whatever the
    connector answers; and when the connector reports no error, the run
    sets the schema, issues [CREATE STAGE IF NOT EXISTS] (whether or not
    the stage was there before), sends no other statement, reports each
    table as skipped, closes the connection and ends with status 0; the
    stage exists afterwards and its files are as before. *)
Theorem nothing_to_load os cfg w abs_path :
  os_path_abspath os (OUTPUT_DIR_DATA cfg) = Some abs_path →
  Forall (λ t, os_path_exists os (local_file abs_path t) = false)
         (DATA_TABLES_TO_EXPORT cfg) →
  let x := main os cfg w in
  Forall (λ s, is_transfer s = false) (executed x) ∧
  (no_fault (take 3 (answers w)) →
   events x =
     [ EPrint (MsgConnecting (tc_account (TARGET_CONFIG cfg)));
       EConnect (TARGET_CONFIG cfg) None;
       ECursor;
       EExecute (use_schema cfg) None;
       EPrint MsgCreatingStage;
       EExecute (CreateStage true STAGE_NAME csv_stage_format) None ] ++
     ((λ t, EPrint (MsgSkipping t)) <$> DATA_TABLES_TO_EXPORT cfg) ++
     [ EClose; EPrint MsgFinished ] ∧
   executed x = [ use_schema cfg;
                  CreateStage true STAGE_NAME csv_stage_format ] ∧
   count is_close (events x) = 1%nat ∧
   STAGE_NAME ∈ stages (wh (final x)) ∧
   files (wh (final x)) = files (wh w) ∧
   exit_status (res x) = 0).
Proof.
  intros Hdir Hmiss x. split.
  { apply Forall_forall. intros s Hs.
    apply (run_issued _ _ _ _ _ (main_run os cfg w)) in Hs.
    destruct Hs as [| |abs table s Hd Hin Hp Hs]; [done..|].
    assert (abs = abs_path) as -> by congruence.
    rewrite Forall_forall in Hmiss. rewrite (Hmiss table Hin) in Hp. done. }
  intros Hnf.
  assert (Hev : events x =
    [ EPrint (MsgConnecting (tc_account (TARGET_CONFIG cfg)));
      EConnect (TARGET_CONFIG cfg) None;
      ECursor;
      EExecute (use_schema cfg) None;
      EPrint MsgCreatingStage;
      EExecute (CreateStage true STAGE_NAME csv_stage_format) None ] ++
    ((λ t, EPrint (MsgSkipping t)) <$> DATA_TABLES_TO_EXPORT cfg) ++
    [ EClose; EPrint MsgFinished ] ∧
    STAGE_NAME ∈ stages (wh (final x)) ∧
    files (wh (final x)) = files (wh w) ∧
    exit_status (res x) = 0).
  { subst x.
    pose proof (answer_at_no_fault 3 0 _ Hnf ltac:(lia)) as A0.
    pose proof (answer_at_no_fault 3 1 _ Hnf ltac:(lia)) as A1.
    pose proof (answer_at_no_fault 3 2 _ Hnf ltac:(lia)) as A2.
    destruct (main_run os cfg w)
      as [e H0|H0 Hd|abs e Hd H0 H1|abs e Hd H0 H1 H2|abs x Hd H0 H1 H2 sf' Hx];
      [congruence..|].
    assert (abs = abs_path) as -> by congruence.
    apply turns_all_missing in Hx; [|done]. subst x.
    unfold events, out, res, final. cbn [fst snd ending start wh].
    rewrite !fmap_app, skips_events.
    destruct (ensure_stage_spec (wh w)) as [Hst Hfiles].
    by repeat split. }
  destruct Hev as (Hev & Hst & Hf & Hex).
  repeat split; try done.
  - unfold executed. rewrite Hev, !omap_app, skips_executed. done.
  - rewrite Hev, !count_app, skips_count by done. done.
Qed.

Lemma nothing_to_load_witness :
  let x := main (demo_host []) (demo_config ["A"; "B"])
             (start {| stages := {[ STAGE_NAME ]}; files := ∅ |} []) in
  executed x = [ use_schema (demo_config ["A"; "B"]);
                 CreateStage true STAGE_NAME csv_stage_format ] ∧
  exit_status (res x) = 0.
Proof.
  destruct (nothing_to_load (demo_host []) (demo_config ["A"; "B"])
              (start {| stages := {[ STAGE_NAME ]}; files := ∅ |} [])
              "/work/out" eq_refl)
    as (_ & H).
  - by repeat constructor.
  - destruct (H (List.Forall_nil _)) as (_ & Hex & _ & _ & _ & Hst).
    exact (conj Hex Hst).
Defined.

(** ** The files of a table in the stage *)

Section TurnStates.

Variables (abs_path table : string) (sf : snowflake).
Hypothesis Hplain : plain table.

Let file := local_file abs_path table.
Let sf1 := put_file (stage_folder PATH_TODO) file sf.
Let sf2 := put_file (stage_folder PATH_DONE) file sf1.
Let sf3 := remove_file (todo_path table) sf2.

Lemma uploaded_files : files sf1 = {[ todo_path table ]} ∪ files sf.
Proof.
  unfold sf1, put_file, file. cbn [files].
  by rewrite basename_local.
Qed.

Lemma archived_files :
  files sf2 = {[ done_path table ]} ∪ ({[ todo_path table ]} ∪ files sf).
Proof.
  unfold sf2, put_file at 1, file. cbn [files]. fold file.
  rewrite uploaded_files. unfold file. by rewrite basename_local.
Qed.

Lemma moved_files :
  files sf3 =
  ({[ done_path table ]} ∪ ({[ todo_path table ]} ∪ files sf))
    ∖ {[ todo_path table ]}.
Proof. unfold sf3, remove_file. cbn [files]. by rewrite archived_files. Qed.

Lemma moved_in_done : done_path table ∈ files sf3.
Proof.
  rewrite moved_files.
  pose proof (todo_path_not_done table table). set_solver.
Qed.

Lemma moved_not_in_todo : todo_path table ∉ files sf3.
Proof. rewrite moved_files. set_solver. Qed.

Lemma other_paths_kept p :
  p ≠ todo_path table → p ≠ done_path table →
  (p ∈ files sf1 ↔ p ∈ files sf) ∧
  (p ∈ files sf2 ↔ p ∈ files sf) ∧
  (p ∈ files sf3 ↔ p ∈ files sf).
Proof.
  intros Ht Hd. rewrite moved_files, archived_files, uploaded_files.
  set_solver.
Qed.

End TurnStates.

(** C1, as the code has it: for a table whose local file exists, when the
    upload, the bulk load and the two statements of the move all go
    through, the turn sends exactly the upload into [not_processed], the
    [COPY INTO], the upload into [processed] with [OVERWRITE=TRUE] and then
    the [REMOVE] of the file under [not_processed]; it ends well, with the
    file under [processed] and no longer under [not_processed]. *)
Theorem loaded_file_is_archived os abs_path table w :
  plain table →
  os_path_exists os (local_file abs_path table) = true →
  answer_at 0 (answers w) = None →
  answer_at 1 (answers w) = None →
  answer_at 2 (answers w) = None →
  answer_at 3 (answers w) = None →
  let x := load_table os abs_path table w in
  res x = Ok tt ∧
  executed x =
    [ Put (local_file abs_path table) (stage_folder PATH_TODO) true;
      copy_sql table;
      Put (local_file abs_path table) (stage_folder PATH_DONE) true;
      Remove (todo_path table) ] ∧
  done_path table ∈ files (wh (final x)) ∧
  todo_path table ∉ files (wh (final x)).
Proof.
  intros Hplain Hex A0 A1 A2 A3 x. subst x.
  destruct (load_table_turn os abs_path table w); try congruence.
  repeat split.
  - by apply moved_in_done.
  - by apply moved_not_in_todo.
Qed.

Lemma loaded_file_is_archived_witness :
  let x := load_table (demo_host ["/work/out/A.csv.gz"]) "/work/out" "A"
                      (start empty_snowflake []) in
  done_path "A" ∈ files (wh (final x)) ∧
  todo_path "A" ∉ files (wh (final x)).
Proof.
  destruct (loaded_file_is_archived (demo_host ["/work/out/A.csv.gz"])
              "/work/out" "A" (start empty_snowflake [])
              eq_refl eq_refl eq_refl eq_refl eq_refl eq_refl)
    as (_ & _ & Hdone & Htodo).
  exact (conj Hdone Htodo).
Defined.

(** C1 as stated fails when the bulk load succeeds and the upload into
    [processed] raises: the file stays under [not_processed], nothing is
    under [processed], and the run ends with status 1. *)
Lemma load_succeeds_but_file_is_not_archived :
  let os := demo_host ["/work/out/A.csv.gz"] in
  let x := main os (demo_config ["A"])
             (start empty_snowflake
                [None; None; None; None; None; Some ProgrammingError]) in
  os_path_exists os (local_file "/work/out" "A") = true ∧
  EExecute (copy_sql "A") None ∈ events x ∧
  EExecute (Put (local_file "/work/out" "A") (stage_folder PATH_DONE) true)
           (Some ProgrammingError) ∈ events x ∧
  (done_path "A" ∉ files (wh (final x))) ∧
  todo_path "A" ∈ files (wh (final x)) ∧
  exit_status (res x) = 1.
Proof.
  cbv zeta. split; [reflexivity|].
  repeat split; refine (bool_decide_unpack _ _); vm_compute; exact I.
Qed.

(** ** What a turn leaves alone *)

Lemma load_failed_report_after table e sf (P : snowflake → Prop) :
  P sf → Forall (λ en, P (after en)) (load_failed_report table e sf).
Proof. intros HP. destruct e; cbn; by repeat constructor. Qed.

(** C9, as the code has it: every [REMOVE] a turn sends names exactly
    [not_processed/<table>.csv.gz]; and the turn of a table whose name is
    plain (so that its uploads land on its own two paths) changes, in the
    stage, nothing but that table's two paths: any other path is in the
    stage after each step of the turn, and at its end, exactly when it was
    there before; so the files of any other table are left as they were. *)
Theorem turn_touches_only_its_table os abs_path table w :
  let x := load_table os abs_path table w in
  (∀ p r, EExecute (Remove p) r ∈ events x → p = todo_path table) ∧
  (plain table →
   (∀ p, p ≠ todo_path table → p ≠ done_path table →
      Forall (λ en, p ∈ files (after en) ↔ p ∈ files (wh w)) (out x) ∧
      (p ∈ files (wh (final x)) ↔ p ∈ files (wh w))) ∧
   (∀ other, other ≠ table →
      (todo_path other ∈ files (wh (final x)) ↔
       todo_path other ∈ files (wh w)) ∧
      (done_path other ∈ files (wh (final x)) ↔
       done_path other ∈ files (wh w)))).
Proof.
  intros x. split.
  { intros p r Hin%executed_elem. subst x.
    destruct (turn_executed _ _ _ _ _ _ (load_table_turn os abs_path table w))
      as ([k Hk] & _ & _).
    assert (Hin' : Remove p ∈ transfers abs_path table)
      by (rewrite Hk; apply elem_of_app; by left).
    unfold transfers in Hin'.
    rewrite !elem_of_cons, elem_of_nil in Hin'.
    destruct Hin' as [?|[?|[?|[?|[]]]]]; try discriminate. congruence. }
  intros Hplain.
  assert (Hframe : ∀ p, p ≠ todo_path table → p ≠ done_path table →
     Forall (λ en, p ∈ files (after en) ↔ p ∈ files (wh w)) (out x) ∧
     (p ∈ files (wh (final x)) ↔ p ∈ files (wh w))).
  { intros p Ht Hd. subst x.
    destruct (other_paths_kept abs_path table (wh w) Hplain p Ht Hd)
      as (K1 & K2 & K3).
    destruct (load_table_turn os abs_path table w);
      unfold out, final, upload_prefix; cbn [fst snd start wh];
      (split; [|done]);
      rewrite ?Forall_app; repeat split;
      try (by apply (load_failed_report_after _ _ _
                       (λ s, p ∈ files s ↔ p ∈ files (wh w))));
      repeat (apply Forall_cons; split;
              [first [exact K1 | exact K2 | exact K3 | done]|]);
      try apply Forall_nil; try exact I. }
  split; [exact Hframe|].
  intros other Hne.
  assert (todo_path other ≠ todo_path table)
    by (by intros ?%todo_path_inj).
  assert (done_path other ≠ done_path table)
    by (by intros ?%done_path_inj).
  pose proof (todo_path_not_done other table).
  pose proof (todo_path_not_done table other).
  split; apply Hframe; congruence.
Qed.

Lemma turn_touches_only_its_table_witness :
  let w := start {| stages := {[ STAGE_NAME ]};
                    files := {[ todo_path "B" ]} |} [] in
  let x := load_table (demo_host ["/work/out/A.csv.gz"]) "/work/out" "A" w in
  todo_path "B" ∈ files (wh (final x)) ↔ todo_path "B" ∈ files (wh w).
Proof.
  destruct (turn_touches_only_its_table (demo_host ["/work/out/A.csv.gz"])
              "/work/out" "A"
              (start {| stages := {[ STAGE_NAME ]};
                        files := {[ todo_path "B" ]} |} []))
    as (_ & H).
  destruct (H eq_refl) as (_ & H').
  destruct (H' "B") as [Hb _]; [discriminate | exact Hb].
Defined.

(** C9 as stated fails for a table name with a folder in it: a [PUT]
    stores a file under the last component of its path, so the turn of
    [sub/T] puts its file on the two paths of table [T], and the [REMOVE]
    it sends names another path. *)
Lemma nested_name_touches_another_table :
  let os := demo_host ["/work/out/sub/T.csv.gz"] in
  let w := start {| stages := {[ STAGE_NAME ]}; files := ∅ |} [] in
  let x := load_table os "/work/out" "sub/T" w in
  res x = Ok tt ∧
  executed x = transfers "/work/out" "sub/T" ∧
  (todo_path "T" ∉ files (wh w)) ∧
  (done_path "T" ∉ files (wh w)) ∧
  todo_path "T" ∈ files (wh (final x)) ∧
  done_path "T" ∈ files (wh (final x)).
Proof.
  cbv zeta. split; [vm_compute; reflexivity|].
  split; [vm_compute; reflexivity|].
  repeat split; refine (bool_decide_unpack _ _); vm_compute; exact I.
Qed.

(** ** The loop is a function of the world it starts in *)

Lemma turn_det os abs_path table sf ans x x' :
  turn os abs_path table sf ans x →
  turn os abs_path table sf ans x' →
  x = x'.
Proof.
  destruct 1; destruct 1; try congruence;
    repeat match goal with
      | H : answer_at ?n ?a = Some ?e, H' : answer_at ?n ?a = Some ?e' |- _ =>
          assert (e = e') as -> by congruence; clear H'
      end; done.
Qed.

Lemma turns_fun os abs_path tables w x :
  turns os abs_path tables w x → x = for_tables os abs_path tables w.
Proof.
  induction 1 as [w|table rest w r w' tr Ht|table rest w w' tr x Ht Hx IH].
  - done.
  - rewrite for_tables_cons.
    by rewrite <- (turn_det _ _ _ _ _ _ _ Ht (load_table_turn _ _ _ _)).
  - rewrite for_tables_cons.
    rewrite <- (turn_det _ _ _ _ _ _ _ Ht (load_table_turn _ _ _ _)).
    by rewrite <- IH.
Qed.

Lemma load_table_missing os abs_path table w :
  os_path_exists os (local_file abs_path table) = false →
  load_table os abs_path table w =
  (Ok tt, w, [ printed (MsgSkipping table) (wh w) ]).
Proof.
  intros Hm.
  rewrite (turn_missing _ _ _ _ _ _ (load_table_turn os abs_path table w) Hm).
  by rewrite start_eta.
Qed.

Lemma loop_skips_missing os abs_path before table after w :
  os_path_exists os (local_file abs_path table) = false →
  let y := for_tables os abs_path (before ++ table :: after) w in
  let y' := for_tables os abs_path (before ++ after) w in
  res y = res y' ∧ final y = final y' ∧ executed y = executed y'.
Proof.
  intros Hm. revert w. induction before as [|a before IH]; intros w; cbn [app].
  - rewrite for_tables_cons, load_table_missing by done. cbv zeta.
    by repeat split.
  - rewrite !for_tables_cons.
    destruct (load_table os abs_path a w) as [[[[]|r] w'] tr]; [|done].
    destruct (IH w') as (Hr & Hf & He). cbv zeta.
    repeat split; [done..|].
    rewrite !executed_eq, !fmap_app, !omap_app.
    f_equal. exact He.
Qed.

Lemma turns_no_fault os abs_path tables w x :
  turns os abs_path tables w x →
  no_fault (answers w) →
  res x = Ok tt.
Proof.
  induction 1 as [w|table rest w r w' tr Ht|table rest w w' tr x Ht Hx IH];
    intros Hnf.
  - done.
  - pose proof (λ k, answer_at_all_no_fault k _ Hnf) as Hk.
    inversion Ht; congruence.
  - apply IH.
    inversion Ht; subst; cbn [answers start]; [done|].
    by apply Forall_drop.
Qed.

Lemma transfers_of_present os abs_path table other s :
  os_path_exists os (local_file abs_path table) = false →
  os_path_exists os (local_file abs_path other) = true →
  s ∈ transfers abs_path other →
  s ∉ transfers abs_path table.
Proof.
  intros Hm Hp Hs Hs'. unfold transfers, copy_sql in *.
  rewrite !elem_of_cons, elem_of_nil in Hs, Hs'.
  assert (other ≠ table) as Hne by congruence.
  destruct Hs as [->|[->|[->|[->|[]]]]];
    destruct Hs' as [Hs'|[Hs'|[Hs'|[Hs'|[]]]]];
    try discriminate Hs'.
  all: injection Hs'; intros;
    first [ congruence | apply Hne, filename_of_inj; assumption ].
Qed.

(** The part of a run that the result of the loop decides. *)
Lemma run_of_loops os cfg cfg' sf ans x x' :
  TARGET_CONFIG cfg' = TARGET_CONFIG cfg →
  OUTPUT_DIR_DATA cfg' = OUTPUT_DIR_DATA cfg →
  (∀ abs_path w,
     os_path_abspath os (OUTPUT_DIR_DATA cfg) = Some abs_path →
     let y := for_tables os abs_path (DATA_TABLES_TO_EXPORT cfg) w in
     let y' := for_tables os abs_path (DATA_TABLES_TO_EXPORT cfg') w in
     res y = res y' ∧ final y = final y' ∧ executed y = executed y') →
  run os cfg sf ans x →
  run os cfg' sf ans x' →
  res x = res x' ∧ final x = final x' ∧ executed x = executed x'.
Proof.
  intros Htc Hdir Hloop Hx Hx'.
  destruct Hx as [e H0|H0 Hd|abs e Hd H0 H1|abs e Hd H0 H1 H2
                 |abs y Hd H0 H1 H2 sf1 Hy];
    destruct Hx' as [e' K0|K0 Kd|abs' e' Kd K0 K1|abs' e' Kd K0 K1 K2
                    |abs' y' Kd K0 K1 K2 sf1' Hy'];
    rewrite ?Hdir in *;
    try congruence;
    repeat match goal with
      | H : answer_at ?n ?a = Some ?e, H' : answer_at ?n ?a = Some ?e' |- _ =>
          assert (e' = e) as -> by congruence; clear H'
      end;
    unfold use_schema, opening; rewrite ?Htc; try done.
  assert (abs' = abs) as -> by congruence.
  apply turns_fun in Hy, Hy'. subst sf1 sf1'.
  pose proof (Hloop abs (start (ensure_stage sf) (drop 3 ans)) Hd) as HL.
  cbv zeta in HL. rewrite <- Hy, <- Hy' in HL. clear Hy Hy'.
  destruct y as [[ry wy] try], y' as [[ry' wy'] try'].
  unfold res, final, executed, events, out in *. cbn [fst snd] in *.
  destruct HL as (-> & -> & He).
  repeat split.
  rewrite !fmap_app, !omap_app. by rewrite He.
Qed.

(** ** Missing local files *)

(** C4: a configured table whose [<table>.csv.gz] is missing from the
    output directory, as line 28 resolves it, is skipped: its turn only
    prints the notice, returns, and leaves the world as it is; no statement
    the run sends is one of that table's; the run goes on with the other
    tables and has the result, the final world and the statements of the
    run over the list without that table; and it ends with status 0 when
    the connector reports no error. *)
Theorem missing_file_is_skipped os cfg w before table after abs_path :
  DATA_TABLES_TO_EXPORT cfg = before ++ table :: after →
  os_path_abspath os (OUTPUT_DIR_DATA cfg) = Some abs_path →
  os_path_exists os (local_file abs_path table) = false →
  let x := main os cfg w in
  let x' := main os (with_tables cfg (before ++ after)) w in
  (∀ w', load_table os abs_path table w' =
         (Ok tt, w', [ printed (MsgSkipping table) (wh w') ])) ∧
  (∀ s, s ∈ executed x → s ∉ transfers abs_path table) ∧
  res x = res x' ∧ final x = final x' ∧ executed x = executed x' ∧
  (no_fault (answers w) → exit_status (res x) = 0).
Proof.
  intros Htables Hdir Hm x x'.
  assert (Hsame : res x = res x' ∧ final x = final x' ∧
                  executed x = executed x').
  { apply (run_of_loops os cfg (with_tables cfg (before ++ after))
             (wh w) (answers w)); [done|done| |apply main_run..].
    intros abs w' Habs. assert (abs = abs_path) as -> by congruence.
    cbn [with_tables DATA_TABLES_TO_EXPORT]. rewrite Htables.
    by apply loop_skips_missing. }
  destruct Hsame as (Hr & Hf & He).
  repeat split; try done.
  - intros w'. by apply load_table_missing.
  - intros s Hs.
    apply (run_issued _ _ _ _ _ (main_run os cfg w)) in Hs.
    destruct Hs as [| |abs other s Hd Hin Hp Hs].
    + unfold transfers. rewrite !elem_of_cons, elem_of_nil.
      by intros [?|[?|[?|[?|[]]]]].
    + unfold transfers. rewrite !elem_of_cons, elem_of_nil.
      by intros [?|[?|[?|[?|[]]]]].
    + assert (abs = abs_path) as -> by congruence.
      by eapply transfers_of_present.
  - intros Hnf. subst x.
    pose proof (λ k, answer_at_all_no_fault k _ Hnf) as Hk.
    destruct (main_run os cfg w)
      as [e H0|H0 Hd|abs e Hd H0 H1|abs e Hd H0 H1 H2|abs y Hd H0 H1 H2 sf' Hy];
      try congruence.
    apply turns_no_fault in Hy; [|by apply Forall_drop].
    unfold res at 1. cbn [fst]. by rewrite Hy.
Qed.

Lemma missing_file_is_skipped_witness :
  let os := demo_host ["/work/out/A.csv.gz"; "/work/out/C.csv.gz"] in
  let x := main os (demo_config ["A"; "B"; "C"]) (start empty_snowflake []) in
  let x' := main os (demo_config ["A"; "C"]) (start empty_snowflake []) in
  executed x = executed x' ∧ exit_status (res x) = 0.
Proof.
  destruct (missing_file_is_skipped
              (demo_host ["/work/out/A.csv.gz"; "/work/out/C.csv.gz"])
              (demo_config ["A"; "B"; "C"]) (start empty_snowflake [])
              ["A"] "B" ["C"] "/work/out" eq_refl eq_refl eq_refl)
    as (_ & _ & _ & _ & Hex & Hst).
  exact (conj Hex (Hst (List.Forall_nil _))).
Defined.

(** ** A bulk load that fails *)

Lemma report_has_no_statement table e sf s r :
  EExecute s r ∉ ev <$> load_failed_report table e sf.
Proof.
  destruct e; cbn; rewrite ?elem_of_cons, ?elem_of_nil; naive_solver.
Qed.

Lemma report_events table e sf :
  ev <$> load_failed_report table e sf =
  if is_ProgrammingError e
  then [ EPrint (MsgLoadFailed table); EPrint (MsgFileRemains (todo_path table)) ]
  else [].
Proof. by destruct e. Qed.

Lemma copy_sql_inj t t' : copy_sql t = copy_sql t' → t = t'.
Proof. unfold copy_sql. by intros [= ->]. Qed.

Lemma uploaded_is_staged abs_path table sf :
  staged PATH_TODO (local_file abs_path table)
    ∈ files (put_file (stage_folder PATH_TODO) (local_file abs_path table) sf).
Proof. unfold staged, put_file. cbn [files]. set_solver. Qed.

(** In a turn, a [COPY INTO] that raised is that of the turn's table; the
    turn then ends with that exception, right after reporting, and leaves
    the warehouse as the upload made it. *)
Lemma turn_failed_copy os abs_path table sf ans x t e :
  turn os abs_path table sf ans x →
  EExecute (copy_sql t) (Some e) ∈ events x →
  res x = Raise (Err e) ∧
  staged PATH_TODO (local_file abs_path t) ∈ files (wh (final x)) ∧
  ∃ pre, events x =
    pre ++ EExecute (copy_sql t) (Some e)
        :: (ev <$> load_failed_report t e (wh (final x))).
Proof.
  intros Ht Hin.
  destruct Ht; unfold events, out, upload_prefix in *; cbn [snd] in *;
    rewrite ?fmap_app, ?elem_of_app in Hin;
    cbn [fmap list_fmap printed ran ev] in Hin;
    rewrite ?elem_of_cons, ?elem_of_nil in Hin;
    repeat match goal with
      | H : _ ∨ _ |- _ => destruct H as [H|H]
      end;
    try discriminate; try done;
    try (by apply report_has_no_statement in Hin).
  injection Hin; intros; subst.
  unfold res, final. cbn [fst snd start wh].
  split; [done|]. split; [apply uploaded_is_staged|].
  eexists (_ :: _ :: _ :: [_]). rewrite !fmap_app. reflexivity.
Qed.

Lemma turns_failed_copy os abs_path tables w x t e :
  turns os abs_path tables w x →
  EExecute (copy_sql t) (Some e) ∈ events x →
  res x = Raise (Err e) ∧
  staged PATH_TODO (local_file abs_path t) ∈ files (wh (final x)) ∧
  ∃ pre, events x =
    pre ++ EExecute (copy_sql t) (Some e)
        :: (ev <$> load_failed_report t e (wh (final x))).
Proof.
  induction 1 as [w|table rest w r w' tr Ht|table rest w w' tr x Ht Hx IH];
    intros Hin.
  - by apply elem_of_nil in Hin.
  - by eapply turn_failed_copy.
  - unfold events, out in Hin. cbn [snd] in Hin.
    rewrite fmap_app, elem_of_app in Hin. destruct Hin as [Hin|Hin].
    + by destruct (turn_failed_copy _ _ _ _ _ _ t e Ht Hin) as (? & _).
    + destruct (IH Hin) as (Hr & Hs & pre & Hpre).
      split; [done|]. split; [done|].
      exists ((ev <$> tr) ++ pre).
      unfold events, out in *. cbn [snd final fst] in *.
      by rewrite fmap_app, Hpre, <- app_assoc.
Qed.

(** C2: when the [COPY INTO] of a table raises, whatever the exception,
    the run ends with a non-zero status (1 for an [Exception], 130 for a
    [KeyboardInterrupt]); after the failed statement the
    trace holds only the reports of the failure, the closing of the
    connection and the last message, so no upload into [processed], no
    [REMOVE] and no turn of a later table takes place; and the file the
    turn uploaded is still under [not_processed] when the run ends. *)
Theorem failed_load_stops_the_run os cfg w t e :
  let x := main os cfg w in
  EExecute (copy_sql t) (Some e) ∈ events x →
  exit_status (res x) = (if is_Exception e then 1 else 130) ∧
  exit_status (res x) ≠ 0 ∧
  (∃ abs_path,
     os_path_abspath os (OUTPUT_DIR_DATA cfg) = Some abs_path ∧
     staged PATH_TODO (local_file abs_path t) ∈ files (wh (final x))) ∧
  (plain t → todo_path t ∈ files (wh (final x))) ∧
  ∃ pre, events x =
    pre ++ EExecute (copy_sql t) (Some e) ::
    (if is_ProgrammingError e
     then [ EPrint (MsgLoadFailed t); EPrint (MsgFileRemains (todo_path t)) ]
     else []) ++
    (if is_Exception e then [ EPrint (MsgCriticalError e) ] else []) ++
    [ EClose; EPrint MsgFinished ].
Proof.
  intros x Hin. subst x.
  destruct (main_run os cfg w)
    as [e' H0|H0 Hd|abs e' Hd H0 H1|abs e' Hd H0 H1 H2
       |abs y Hd H0 H1 H2 sf' Hy];
    unfold events, out in Hin; cbn [snd] in Hin;
    rewrite ?fmap_app, ?elem_of_app in Hin;
    cbn [fmap list_fmap printed ran ev opening] in Hin;
    rewrite ?elem_of_cons, ?elem_of_nil in Hin.
  - by destruct Hin as [?|[?|?]].
  - by destruct Hin as [[?|[?|?]]|[?|?]].
  - destruct Hin as [[?|[?|?]]|[[?|[?|?]]|Hin]]; try done.
    destruct e' as [| |]; cbn in Hin;
      rewrite ?elem_of_cons, ?elem_of_nil in Hin; naive_solver.
  - destruct Hin as [[?|[?|?]]|[[?|[?|[?|[?|?]]]]|Hin]]; try done.
    destruct e' as [| |]; cbn in Hin;
      rewrite ?elem_of_cons, ?elem_of_nil in Hin; naive_solver.
  - destruct Hin as [[?|[?|?]]|[[?|[?|[?|[?|?]]]]|[Hin|Hin]]]; try done.
    + destruct (turns_failed_copy _ _ _ _ _ t e Hy Hin)
        as (Hr & Hs & pre & Hpre).
      destruct y as [[ry wy] try].
      unfold res, final, events, out in *. cbn [fst snd] in *. subst ry.
      split; [by destruct e|]. split; [by destruct e|].
      split; [by exists abs|].
      split.
      { intros Hplain. unfold todo_path.
        by rewrite <- (staged_local abs). }
      eexists (_ :: _ :: _ :: _ :: _ :: _ :: pre).
      rewrite !fmap_app, Hpre, report_events.
      cbn [fmap list_fmap printed ran ev opening app].
      do 6 f_equal. rewrite <- app_assoc. cbn [app]. do 2 f_equal.
      by destruct e.
    + destruct (res y) as [|[[]|]]; cbn in Hin;
        rewrite ?elem_of_cons, ?elem_of_nil in Hin; naive_solver.
Qed.

Lemma failed_load_stops_the_run_witness :
  let x := main (demo_host ["/work/out/A.csv.gz"; "/work/out/B.csv.gz"])
                (demo_config ["A"; "B"])
                (start empty_snowflake
                   [None; None; None; None; Some ProgrammingError]) in
  exit_status (res x) ≠ 0 ∧
  executed x =
    [ use_schema (demo_config ["A"; "B"]);
      CreateStage true STAGE_NAME csv_stage_format;
      Put (local_file "/work/out" "A") (stage_folder PATH_TODO) true;
      copy_sql "A" ].
Proof.
  destruct (failed_load_stops_the_run
              (demo_host ["/work/out/A.csv.gz"; "/work/out/B.csv.gz"])
              (demo_config ["A"; "B"])
              (start empty_snowflake
                 [None; None; None; None; Some ProgrammingError])
              "A" ProgrammingError) as (_ & Hst & _).
  - refine (bool_decide_unpack _ _). vm_compute. exact I.
  - split; [exact Hst|]. vm_compute. reflexivity.
Defined.

(** ** The two folders of the stage *)

Lemma stable_points_app m tr1 tr2 :
  stable_points m (tr1 ++ tr2) =
  stable_points m tr1 ++ stable_points (moving_end m tr1) tr2.
Proof.
  revert m. induction tr1 as [|en tr1 IH]; intros m; [done|].
  cbn [app stable_points]. rewrite IH, <- app_assoc. done.
Qed.

Lemma moving_end_app m tr1 tr2 :
  moving_end m (tr1 ++ tr2) = moving_end (moving_end m tr1) tr2.
Proof. unfold moving_end. by rewrite fmap_app, foldl_app. Qed.

(** A stretch of the trace in which no move starts or ends, nothing is
    uploaded or removed, and the files of the stage stay as they are. *)
Lemma quiet_stretch t tr sf :
  tr ≠ [] →
  Forall (λ en, idle (ev en) ∧ is_upload_of t (ev en) = false ∧
                is_failed_remove_of t (ev en) = false ∧
                files (after en) = files sf) tr →
  (Forall (at_most_one t) (stable_points false tr) ↔ at_most_one t sf) ∧
  moving_end false tr = false ∧
  count (is_upload_of t) (ev <$> tr) = 0%nat ∧
  count (is_failed_remove_of t) (ev <$> tr) = 0%nat.
Proof.
  intros Hne Htr.
  induction Htr as [|en tr (Hidle & Hu & Hr & Hafter) Htr IH]; [done|].
  cbn [stable_points fmap list_fmap]. unfold moving_end in *.
  cbn [fmap list_fmap foldl].
  rewrite !count_cons, Hu, Hr, Hidle. cbn [app]. rewrite Forall_cons.
  assert (Hsame : at_most_one t (after en) ↔ at_most_one t sf)
    by (unfold at_most_one; by rewrite Hafter).
  destruct tr as [|en' tr].
  - cbn. rewrite Hsame. split; [|done]. split; [by intros [? _]|]. by split.
  - destruct IH as (IH1 & IH2 & IH3 & IH4); [done|].
    rewrite IH1, IH3, IH4, Hsame. split; [tauto|done].
Qed.

Lemma moving_put_todo m file overwrite r :
  moving_after m (EExecute (Put file (stage_folder PATH_TODO) overwrite) r)
  = m.
Proof.
  destruct r; [done|]. cbn.
  rewrite bool_decide_eq_false_2; [done|].
  intros H. by apply (folders_apart "" ""); rewrite H.
Qed.

Lemma moving_put_done m file overwrite :
  moving_after m (EExecute (Put file (stage_folder PATH_DONE) overwrite) None)
  = true.
Proof. cbn. by rewrite bool_decide_eq_true_2. Qed.

Lemma moving_put_done_failed m file overwrite e :
  moving_after m
    (EExecute (Put file (stage_folder PATH_DONE) overwrite) (Some e)) = m.
Proof. done. Qed.

Lemma moving_print m msg : moving_after m (EPrint msg) = m.
Proof. done. Qed.

Lemma moving_copy m t r : moving_after m (EExecute (copy_sql t) r) = m.
Proof. done. Qed.

Lemma moving_remove m path r :
  moving_after m (EExecute (Remove path) r) = false.
Proof. done. Qed.

Ltac stable_points_of_turn :=
  cbn [out res final fst snd start wh stable_points moving_end foldl fmap
       list_fmap ev after printed ran upload_prefix load_failed_report
       is_ProgrammingError app];
  rewrite ?moving_print, ?moving_copy, ?moving_put_todo,
          ?moving_put_done_failed, ?moving_put_done, ?moving_remove;
  cbn [app].

Ltac sort_paths :=
  repeat match goal with
    | H : todo_path _ = done_path _ |- _ =>
        by destruct (todo_path_not_done _ _ H)
    | H : done_path _ = todo_path _ |- _ =>
        by destruct (todo_path_not_done _ _ (eq_sym H))
    | H : todo_path ?a = todo_path ?b |- _ =>
        apply todo_path_inj in H; subst
    | H : done_path ?a = done_path ?b |- _ =>
        apply done_path_inj in H; subst
    end.

Section TurnFolders.

Variables (abs_path table : string) (sf : snowflake) (t : string).
Hypothesis Hplain : plain table.
Hypothesis Hone : at_most_one t sf.

Let file := local_file abs_path table.
Let sf1 := put_file (stage_folder PATH_TODO) file sf.
Let sf2 := put_file (stage_folder PATH_DONE) file sf1.
Let sf3 := remove_file (todo_path table) sf2.

Lemma at_most_one_uploaded :
  at_most_one t sf1 ↔ (table = t → done_path t ∉ files sf).
Proof.
  unfold at_most_one, sf1, file in *. rewrite uploaded_files by done.
  rewrite !elem_of_union, !elem_of_singleton. split.
  - intros H -> Hd. apply H. split; [by left|by right].
  - intros H [[Ht|Ht] [Hd|Hd]]; sort_paths; tauto.
Qed.

Lemma at_most_one_archived : at_most_one t sf2 ↔ table ≠ t.
Proof.
  unfold at_most_one, sf2, sf1, file in *. rewrite archived_files by done.
  rewrite !elem_of_union, !elem_of_singleton. split.
  - intros H ->. apply H. split; [right; by left|by left].
  - intros H [[Ht|[Ht|Ht]] [Hd|[Hd|Hd]]]; sort_paths; tauto.
Qed.

Lemma at_most_one_moved : at_most_one t sf3.
Proof.
  unfold at_most_one, sf3, sf2, sf1, file in *. rewrite moved_files by done.
  rewrite !elem_of_difference, !elem_of_union, !elem_of_singleton.
  intros [[[Ht|[Ht|Ht]] Hnt] [[Hd|[Hd|Hd]] _]]; sort_paths; tauto.
Qed.

Lemma done_after_move :
  done_path t ∈ files sf3 ↔ done_path t ∈ files sf ∨ table = t.
Proof.
  unfold sf3, sf2, sf1, file. rewrite moved_files by done.
  rewrite !elem_of_difference, !elem_of_union, !elem_of_singleton. split.
  - intros [[Hd|[Hd|Hd]] _]; sort_paths; tauto.
  - intros [Hd| ->].
    + split; [tauto|]. intros H. sort_paths.
    + split; [by left|]. intros H. sort_paths.
Qed.

Lemma upload_of_put_todo :
  is_upload_of t (EExecute (Put file (stage_folder PATH_TODO) true) None)
  = bool_decide (table = t).
Proof.
  cbn. unfold file. rewrite basename_local by done.
  apply bool_decide_ext. split; [apply todo_path_inj|by intros ->].
Qed.

Lemma upload_of_put_done r :
  is_upload_of t (EExecute (Put file (stage_folder PATH_DONE) true) r) = false.
Proof.
  destruct r; [done|]. cbn. apply bool_decide_eq_false_2.
  intros H. symmetry in H. by apply folders_apart in H.
Qed.

Lemma failed_remove_of_remove e :
  is_failed_remove_of t (EExecute (Remove (todo_path table)) (Some e))
  = bool_decide (table = t).
Proof.
  cbn. apply bool_decide_ext. split; [apply todo_path_inj|by intros ->].
Qed.

Lemma turn_folders os ans x :
  turn os abs_path table sf ans x →
  moving_end false (out x) = false ∧
  (count (is_upload_of t) (events x) ≤ 1)%nat ∧
  (Forall (at_most_one t) (stable_points false (out x)) ↔
     count (is_failed_remove_of t) (events x) = 0%nat ∧
     (count (is_upload_of t) (events x) = 0%nat ∨
      done_path t ∉ files sf)) ∧
  (Forall (at_most_one t) (stable_points false (out x)) →
   at_most_one t (wh (final x))) ∧
  (res x = Ok tt →
     count (is_failed_remove_of t) (events x) = 0%nat ∧
     at_most_one t (wh (final x)) ∧
     (done_path t ∈ files (wh (final x)) ↔
      done_path t ∈ files sf ∨
      count (is_upload_of t) (events x) = 1%nat)).
Proof.
  pose proof at_most_one_uploaded as A1.
  pose proof at_most_one_archived as A2.
  pose proof at_most_one_moved as A3.
  pose proof done_after_move as D3.
  pose proof upload_of_put_todo as U1.
  pose proof upload_of_put_done as U2.
  pose proof failed_remove_of_remove as R1.
  unfold sf3, sf2, sf1, file in A1, A2, A3, D3, U1, U2.
  destruct 1; try destruct e;
    repeat match goal with
      | x := put_file _ _ _ |- _ => subst x
      | x := remove_file _ _ |- _ => subst x
      end;
    stable_points_of_turn;
    unfold events; stable_points_of_turn;
    repeat rewrite count_cons;
    rewrite ?U1, ?U2, ?R1; cbn [is_upload_of is_failed_remove_of copy_sql];
    rewrite ?Forall_cons, ?A1, ?A2, ?D3.
  all: destruct (decide (table = t)) as [Heq|Hne];
    [rewrite ?(bool_decide_eq_true_2 _ Heq)
    |rewrite ?(bool_decide_eq_false_2 _ Hne)];
    unfold count; cbn [filter list_filter length Nat.add].
  all: clear U1 U2 R1 A1 A2 Hplain; subst;
    intuition (first [done | lia | congruence]).
Qed.

End TurnFolders.

Lemma turns_folders os abs_path tables w x t :
  turns os abs_path tables w x →
  Forall plain tables →
  at_most_one t (wh w) →
  moving_end false (out x) = false ∧
  (Forall (at_most_one t) (stable_points false (out x)) ↔
     count (is_failed_remove_of t) (events x) = 0%nat ∧
     (count (is_upload_of t) (events x) +
      (if bool_decide (done_path t ∈ files (wh w)) then 1 else 0) ≤ 1)%nat) ∧
  (Forall (at_most_one t) (stable_points false (out x)) →
   at_most_one t (wh (final x))).
Proof.
  induction 1 as [w|table rest w r w' tr Ht|table rest w w' tr x Ht Hx IH];
    intros Hpl Hone.
  - split; [done|]. split; [|done].
    cbn. split; [intros _|done]. split; [done|]. case_bool_decide; lia.
  - apply Forall_cons in Hpl as [Hp _].
    destruct (turn_folders _ _ _ t Hp Hone _ _ _ Ht) as (M & U & G & Fin & _).
    split; [done|]. split; [|done].
    rewrite G. case_bool_decide; intuition lia.
  - apply Forall_cons in Hpl as [Hp Hpl].
    destruct (turn_folders _ _ _ t Hp Hone _ _ _ Ht)
      as (M & U & G & Fin & HOk).
    destruct (HOk eq_refl) as (F1 & Hone' & D'). clear HOk.
    destruct (IH Hpl Hone') as (M2 & G2 & Fin2). clear IH.
    unfold events, out, final in *. cbn [fst snd] in *.
    rewrite moving_end_app, stable_points_app, M, Forall_app.
    rewrite fmap_app, !count_app.
    split; [done|]. split; [|tauto].
    rewrite G, G2. clear G G2 Fin Fin2.
    assert (count (is_upload_of t) (ev <$> tr) = 0%nat ∨
            count (is_upload_of t) (ev <$> tr) = 1%nat) as [Hu|Hu] by lia;
      rewrite Hu in *; rewrite F1 in *;
      do 2 case_bool_decide; intuition (first [done | lia]).
Qed.

Lemma at_most_one_ensure_stage t sf :
  at_most_one t sf → at_most_one t (ensure_stage sf).
Proof.
  unfold at_most_one. by rewrite (proj2 (ensure_stage_spec sf)).
Qed.

Lemma ending_quiet t r sf :
  (ending r sf).2 ≠ [] ∧
  Forall (λ en, idle (ev en) ∧ is_upload_of t (ev en) = false ∧
                is_failed_remove_of t (ev en) = false ∧
                files (after en) = files sf) (ending r sf).2.
Proof.
  destruct r as [|[[]|]]; cbn; (split; [done|]);
    repeat constructor; by intros [].
Qed.

(** C6, as the code has it: in a run over plain table names, the file of
    a table is in at most one of the two folders at every point of the run
    that lies outside a move (a move lasts from a successful upload into
    [processed] until the [REMOVE] that follows it has been tried) exactly
    when it is in at most one of them at the start, no [REMOVE] of it
    raises, and the run uploads it into [not_processed] at most once, and
    not at all when it is under [processed] at the start. *)
Theorem one_folder_outside_moves os cfg w t :
  Forall plain (DATA_TABLES_TO_EXPORT cfg) →
  let x := main os cfg w in
  Forall (at_most_one t) (stable_points false (out x)) ↔
    at_most_one t (wh w) ∧
    count (is_failed_remove_of t) (events x) = 0%nat ∧
    (count (is_upload_of t) (events x) +
     (if bool_decide (done_path t ∈ files (wh w)) then 1 else 0) ≤ 1)%nat.
Proof.
  intros Hpl x. subst x.
  assert (Hquiet : ∀ tr, tr ≠ [] →
    Forall (λ en, idle (ev en) ∧ is_upload_of t (ev en) = false ∧
                  is_failed_remove_of t (ev en) = false ∧
                  files (after en) = files (wh w)) tr →
    (Forall (at_most_one t) (stable_points false tr) ↔
     at_most_one t (wh w) ∧
     count (is_failed_remove_of t) (ev <$> tr) = 0%nat ∧
     (count (is_upload_of t) (ev <$> tr) +
      (if bool_decide (done_path t ∈ files (wh w)) then 1 else 0) ≤ 1)%nat)).
  { intros tr Hne Htr.
    destruct (quiet_stretch t tr (wh w) Hne Htr) as (Q1 & _ & Q3 & Q4).
    rewrite Q1, Q3, Q4. case_bool_decide; intuition lia. }
  destruct (main_run os cfg w)
    as [e H0|H0 Hd|abs e Hd H0 H1|abs e Hd H0 H1 H2|abs y Hd H0 H1 H2 sf' Hy];
    unfold events, out; cbn [snd].
  - apply Hquiet; [done|]. repeat constructor; by intros [].
  - apply Hquiet; [done|]. repeat constructor; by intros [].
  - destruct (ending_quiet t (Raise (Err e)) (wh w)) as [_ He].
    apply Hquiet; [done|].
    apply Forall_app_2; [repeat constructor; by intros []|].
    apply Forall_app_2; [repeat constructor; by intros []|done].
  - destruct (ending_quiet t (Raise (Err e)) (wh w)) as [_ He].
    apply Hquiet; [done|].
    apply Forall_app_2; [repeat constructor; by intros []|].
    apply Forall_app_2; [repeat constructor; by intros []|done].
  - subst sf'.
    set (head := opening cfg None (wh w) ++
            [ {| ev := ECursor; after := wh w |};
              ran (use_schema cfg) None (wh w);
              printed MsgCreatingStage (wh w);
              ran (CreateStage true STAGE_NAME csv_stage_format) None
                  (ensure_stage (wh w)) ]).
    change (Forall (at_most_one t)
              (stable_points false
                 (head ++ (out y ++ (ending (res y) (wh (final y))).2))) ↔
            at_most_one t (wh w) ∧
            count (is_failed_remove_of t)
              (ev <$> head ++ (out y ++ (ending (res y) (wh (final y))).2))
              = 0%nat ∧
            (count (is_upload_of t)
               (ev <$> head ++ (out y ++ (ending (res y) (wh (final y))).2)) +
             (if bool_decide (done_path t ∈ files (wh w)) then 1 else 0)
             ≤ 1)%nat).
    destruct (quiet_stretch t head (wh w)) as (Q1 & Q2 & Q3 & Q4); [done| |].
    { subst head. pose proof (proj2 (ensure_stage_spec (wh w))) as Hf.
      repeat constructor; first [by intros [] | done]. }
    destruct (ending_quiet t (res y) (wh (final y))) as [Hne He].
    destruct (quiet_stretch t _ (wh (final y)) Hne He) as (E1 & E2 & E3 & E4).
    rewrite (stable_points_app false head), Q2, Forall_app, Q1.
    rewrite !fmap_app, !count_app, Q3, Q4, E3, E4.
    split.
    + intros [Hone Hrest]. split; [done|].
      destruct (turns_folders _ _ _ _ _ t Hy Hpl) as (M & G & Fin).
      { by apply at_most_one_ensure_stage. }
      rewrite (stable_points_app false (out y)), M, Forall_app in Hrest.
      destruct Hrest as [Hloop _]. apply G in Hloop.
      cbn [start wh] in Hloop.
      rewrite (proj2 (ensure_stage_spec (wh w))) in Hloop.
      unfold events in Hloop. cbn [Nat.add]. rewrite !Nat.add_0_r. done.
    + intros (Hone & HF & HU). split; [done|].
      destruct (turns_folders _ _ _ _ _ t Hy Hpl) as (M & G & Fin).
      { by apply at_most_one_ensure_stage. }
      rewrite (stable_points_app false (out y)), M, Forall_app, E1.
      cbn [start wh] in G.
      rewrite (proj2 (ensure_stage_spec (wh w))) in G.
      cbn [Nat.add] in HF, HU. rewrite !Nat.add_0_r in HF, HU.
      assert (Hloop : Forall (at_most_one t) (stable_points false (out y)))
        by (by apply G).
      split; [done|]. by apply Fin.
Qed.

(** With a file of each table on the machine and an empty stage, a run
    over [A] and [B] in which the connector reports no error keeps every
    file in one folder outside the moves. *)
Lemma one_folder_outside_moves_witness :
  Forall (at_most_one "A")
    (stable_points false
       (out (main (demo_host ["/work/out/A.csv.gz"]) (demo_config ["A"; "B"])
                  (start empty_snowflake [])))).
Proof.
  apply (one_folder_outside_moves (demo_host ["/work/out/A.csv.gz"])
           (demo_config ["A"; "B"]) (start empty_snowflake []) "A").
  - repeat constructor.
  - split; [|split].
    + intros [H _]. by apply not_elem_of_empty in H.
    + vm_compute. reflexivity.
    + vm_compute. lia.
Defined.

(** C6 as stated fails on a second run over the same table: the first
    run has left the file under [processed], and after the upload of the
    second run, outside any move, the file is in both folders. *)
Lemma rerun_has_file_in_both_folders :
  let os := demo_host ["/work/out/A.csv.gz"] in
  let cfg := demo_config ["A"] in
  let first := main os cfg (start empty_snowflake []) in
  let again := main os cfg (start (wh (final first)) []) in
  exit_status (res first) = 0 ∧
  files (wh (final first)) = {[ done_path "A" ]} ∧
  Exists (λ sf, todo_path "A" ∈ files sf ∧ done_path "A" ∈ files sf)
         (stable_points false (out again)).
Proof.
  cbv zeta. split; [|split].
  - vm_compute. reflexivity.
  - vm_compute. reflexivity.
  - refine (bool_decide_unpack _ _). vm_compute. exact I.
Qed.

(** It fails as well when the [REMOVE] raises: the move has been tried,
    the run is over, and the file is in both folders for good. *)
Lemma failed_remove_leaves_file_in_both_folders :
  let x := main (demo_host ["/work/out/A.csv.gz"]) (demo_config ["A"])
             (start empty_snowflake
                [None; None; None; None; None; None;
                 Some ProgrammingError]) in
  EExecute (Remove (todo_path "A")) (Some ProgrammingError) ∈ events x ∧
  Exists (λ sf, todo_path "A" ∈ files sf ∧ done_path "A" ∈ files sf)
         (stable_points false (out x)) ∧
  todo_path "A" ∈ files (wh (final x)) ∧
  done_path "A" ∈ files (wh (final x)).
Proof.
  cbv zeta.
  repeat split; refine (bool_decide_unpack _ _); vm_compute; exact I.
Qed.

(** * Further properties of the script *)

(** ** The anatomy of a run *)

Lemma report_is_report table e sf :
  Forall (λ e, is_report e = true) (ev <$> load_failed_report table e sf).
Proof. destruct e; cbn; by repeat constructor. Qed.

Lemma report_calm l :
  Forall (λ e, is_report e = true) l → Forall (λ e, calm e = true) l.
Proof.
  intros H. eapply Forall_impl; [exact H|]. intros [| | | |[]]; done.
Qed.

(** A turn either ends well, with calm events only, or ends with the
    exception of the one statement that raised, of which only the report
    of the handler follows. *)
Lemma turn_anatomy os abs_path table sf ans x :
  turn os abs_path table sf ans x →
  (res x = Ok tt ∧ Forall (λ e, calm e = true) (events x)) ∨
  (∃ s e pre post,
     res x = Raise (Err e) ∧
     events x = pre ++ EExecute s (Some e) :: post ∧
     Forall (λ e, calm e = true) pre ∧
     Forall (λ e, is_report e = true) post).
Proof.
  destruct 1; unfold events, out, upload_prefix; cbn [snd res fst];
    rewrite ?fmap_app; cbn [fmap list_fmap printed ran ev app].
  - left. by repeat constructor.
  - right. eexists _, e, [_; _], []. by repeat constructor.
  - right. eexists _, e, [_; _; _; _], _.
    split; [done|]. split; [done|].
    split; [by repeat constructor|apply report_is_report].
  - right. eexists _, e, [_; _; _; _; _; _; _], _.
    split; [done|]. split; [done|].
    split; [by repeat constructor|apply report_is_report].
  - right. eexists _, e, [_; _; _; _; _; _; _; _], _.
    split; [done|]. split; [done|].
    split; [by repeat constructor|apply report_is_report].
  - left. by repeat constructor.
Qed.

Lemma turns_anatomy os abs_path tables w x :
  turns os abs_path tables w x →
  (res x = Ok tt ∧ Forall (λ e, calm e = true) (events x)) ∨
  (∃ s e pre post,
     res x = Raise (Err e) ∧
     events x = pre ++ EExecute s (Some e) :: post ∧
     Forall (λ e, calm e = true) pre ∧
     Forall (λ e, is_report e = true) post).
Proof.
  induction 1 as [w|table rest w r w' tr Ht|table rest w w' tr x Ht Hx IH].
  - left. by split.
  - by apply turn_anatomy in Ht.
  - apply turn_anatomy in Ht as [[_ Hcalm]|(s & e & pre & post & Hr & _)];
      [|discriminate Hr].
    unfold events, out, res in *. cbn [fst snd] in *.
    destruct IH as [[Hr Hc]|(s & e & pre & post & Hr & Hev & Hpre & Hpost)].
    + left. split; [done|]. rewrite fmap_app. by apply Forall_app.
    + right. exists s, e, ((ev <$> tr) ++ pre), post.
      split; [done|]. split; [by rewrite fmap_app, Hev, <- app_assoc|].
      split; [by apply Forall_app|done].
Qed.

Lemma ending_aftermath e sf :
  ev <$> (ending (Raise (Err e)) sf).2 = aftermath e ∧
  (ending (Raise (Err e)) sf).1 =
    if is_Exception e then Raise (SystemExit 1) else Raise (Err e).
Proof. by destruct e. Qed.

(** A run ends in one of four ways: well, after calm events, with the
    closing of the connection; with the exception of [connect], right
    after the call; with the exception of [os.path.abspath], right after
    the cursor has been obtained; or with the first statement that raised,
    followed by the report of the turn's handler and the aftermath of
    [main]. *)
Lemma run_anatomy os cfg sf ans x :
  run os cfg sf ans x →
  (res x = Ok tt ∧
   is_Some (os_path_abspath os (OUTPUT_DIR_DATA cfg)) ∧
   ∃ pre, events x = pre ++ [ EClose; EPrint MsgFinished ] ∧
          Forall (λ e, calm e = true) pre) ∨
  (∃ e, res x = Raise (Err e) ∧
        events x = [ EPrint (MsgConnecting (tc_account (TARGET_CONFIG cfg)));
                     EConnect (TARGET_CONFIG cfg) (Some e) ]) ∨
  (res x = Raise (Err OtherError) ∧
   os_path_abspath os (OUTPUT_DIR_DATA cfg) = None ∧
   events x = [ EPrint (MsgConnecting (tc_account (TARGET_CONFIG cfg)));
                EConnect (TARGET_CONFIG cfg) None; ECursor ]) ∨
  (∃ s e pre post,
     res x = (if is_Exception e then Raise (SystemExit 1)
              else Raise (Err e)) ∧
     events x = pre ++ EExecute s (Some e) :: post ++ aftermath e ∧
     Forall (λ e, calm e = true) pre ∧
     Forall (λ e, is_report e = true) post).
Proof.
  destruct 1 as [e H0|H0 Hd|abs e Hd H0 H1|abs e Hd H0 H1 H2
                 |abs y Hd H0 H1 H2 sf' Hy].
  - right. left. by exists e.
  - right. right. left. done.
  - right. right. right. destruct (ending_aftermath e sf) as [Hev Hr].
    eexists (use_schema cfg), e, [_; _; _], [].
    unfold events, out, res. cbn [fst snd]. rewrite !fmap_app, Hev, Hr.
    by repeat constructor.
  - right. right. right. destruct (ending_aftermath e sf) as [Hev Hr].
    eexists (CreateStage true STAGE_NAME csv_stage_format), e,
            [_; _; _; _; _], [].
    unfold events, out, res. cbn [fst snd]. rewrite !fmap_app, Hev, Hr.
    by repeat constructor.
  - apply turns_anatomy in Hy
      as [[Hr Hc]|(s & e & pre & post & Hr & Hev & Hpre & Hpost)];
      destruct y as [[ry wy] try];
      unfold events, out, res, final in *; cbn [fst snd] in *; subst ry.
    + left. split; [done|]. split; [by eexists|].
      eexists (_ :: _ :: _ :: _ :: _ :: _ :: (ev <$> try)).
      rewrite !fmap_app. cbn [fmap list_fmap opening printed ran ev app ending snd].
      split; [done|]. by repeat constructor.
    + right. right. right.
      destruct (ending_aftermath e (wh wy)) as [Hev' Hr'].
      eexists s, e, (_ :: _ :: _ :: _ :: _ :: _ :: pre), post.
      rewrite !fmap_app, Hev, Hev', Hr'.
      cbn [fmap list_fmap opening printed ran ev app].
      split; [done|]. split; [by rewrite <- app_assoc|].
      split; [by repeat constructor|done].
Qed.

Lemma calm_no_failure e : calm e = true → is_failure e = false.
Proof. by destruct e as [? []| |? []| |]. Qed.

Lemma report_no_failure e : is_report e = true → is_failure e = false.
Proof. by destruct e as [? []| |? []| |]. Qed.

Lemma aftermath_no_failure e :
  Forall (λ e, is_failure e = false) (aftermath e).
Proof. destruct e; by repeat constructor. Qed.

Lemma failure_not_among g l :
  is_failure g = true → Forall (λ e, is_failure e = false) l → g ∉ l.
Proof.
  intros Hg Hl Hin. rewrite Forall_forall in Hl.
  apply Hl in Hin. congruence.
Qed.

(** The one call that raised. *)
Lemma unique_failure g f pre post :
  is_failure g = true →
  Forall (λ e, calm e = true) pre →
  Forall (λ e, is_failure e = false) post →
  g ∈ pre ++ f :: post → g = f.
Proof.
  intros Hg Hpre Hpost Hin.
  apply elem_of_app in Hin as [Hin|Hin].
  - exfalso. revert Hin. apply failure_not_among; [done|].
    eapply Forall_impl; [exact Hpre|]. apply calm_no_failure.
  - apply elem_of_cons in Hin as [Hin|Hin]; [done|].
    exfalso. revert Hin. by apply failure_not_among.
Qed.

Lemma failed_statement_anatomy os cfg sf ans x s e :
  run os cfg sf ans x →
  EExecute s (Some e) ∈ events x →
  res x = (if is_Exception e then Raise (SystemExit 1) else Raise (Err e)) ∧
  ∃ pre post,
    events x = pre ++ EExecute s (Some e) :: post ++ aftermath e ∧
    Forall (λ e, calm e = true) pre ∧
    Forall (λ e, is_report e = true) post.
Proof.
  intros Hrun Hin.
  destruct (run_anatomy _ _ _ _ _ Hrun)
    as [(_ & _ & pre & Hev & Hpre)
       |[(e' & _ & Hev)
        |[(_ & _ & Hev)
         |(s' & e' & pre & post & Hr & Hev & Hpre & Hpost)]]];
    rewrite Hev in Hin.
  - apply unique_failure in Hin; [done|done|done|by repeat constructor].
  - rewrite !elem_of_cons, elem_of_nil in Hin. by destruct Hin as [?|[?|?]].
  - rewrite !elem_of_cons, elem_of_nil in Hin.
    by destruct Hin as [?|[?|[?|?]]].
  - apply unique_failure in Hin; [|done|done|].
    + injection Hin as -> ->. split; [done|]. by exists pre, post.
    + apply Forall_app. split; [|apply aftermath_no_failure].
      eapply Forall_impl; [exact Hpost|]. apply report_no_failure.
Qed.

(** ** The first error ends the run *)

(** X1: whichever statement raises ([USE SCHEMA], [CREATE STAGE], a [PUT],
    a [COPY INTO] or a [REMOVE]), it is the only call of the run that
    raised; the events before it are calm, and after it come only the
    report of the turn's handler, the critical-error message when the
    exception is an [Exception], the closing of the connection and the
    last message: no statement is retried or sent afterwards, and the run
    ends with status 1, or 130 when the exception is a
    [KeyboardInterrupt]. *)
Theorem first_error_ends_the_run os cfg w s e :
  let x := main os cfg w in
  EExecute s (Some e) ∈ events x →
  exit_status (res x) = (if is_Exception e then 1 else 130) ∧
  count is_failure (events x) = 1%nat ∧
  ∃ pre post,
    events x = pre ++ EExecute s (Some e) :: post ++ aftermath e ∧
    Forall (λ e, calm e = true) pre ∧
    Forall (λ e, is_report e = true) post.
Proof.
  intros x Hin.
  destruct (failed_statement_anatomy _ _ _ _ _ _ _ (main_run os cfg w) Hin)
    as (Hr & pre & post & Hev & Hpre & Hpost).
  split; [subst x; rewrite Hr; by destruct e|].
  split; [|by exists pre, post].
  subst x. rewrite Hev, count_app, count_cons, count_app.
  rewrite (count_none is_failure pre), (count_none is_failure post),
          (count_none is_failure (aftermath e)); [done| | |].
  - apply aftermath_no_failure.
  - eapply Forall_impl; [exact Hpost|]. apply report_no_failure.
  - eapply Forall_impl; [exact Hpre|]. apply calm_no_failure.
Qed.

Lemma first_error_ends_the_run_witness :
  let x := main (demo_host ["/work/out/A.csv.gz"; "/work/out/B.csv.gz"])
                (demo_config ["A"; "B"])
                (start empty_snowflake
                   [None; None; None; None; None; None; Some OtherError]) in
  exit_status (res x) = 1 ∧ count is_failure (events x) = 1%nat.
Proof.
  destruct (first_error_ends_the_run
              (demo_host ["/work/out/A.csv.gz"; "/work/out/B.csv.gz"])
              (demo_config ["A"; "B"])
              (start empty_snowflake
                 [None; None; None; None; None; None; Some OtherError])
              (Remove (todo_path "A")) OtherError) as (Hst & Hc & _).
  - refine (bool_decide_unpack _ _). vm_compute. exact I.
  - exact (conj Hst Hc).
Defined.

Lemma calm_not_raised e : calm e = true → raised_by e = None.
Proof. by destruct e as [? []| |? []| |]. Qed.

Lemma report_not_raised e : is_report e = true → raised_by e = None.
Proof. by destruct e as [? []| |? []| |]. Qed.

Lemma aftermath_not_raised e :
  Forall (λ e, raised_by e = None) (aftermath e).
Proof. destruct e; by repeat constructor. Qed.

Lemma none_raised k l :
  Forall (λ e, raised_by e = None) l →
  ¬ Exists (λ e, raised_by e = Some k) l.
Proof.
  intros Hl Hex. apply Exists_exists in Hex as (e & Hin & He).
  rewrite Forall_forall in Hl. apply Hl in Hin. congruence.
Qed.

(** X2: the status of a run is 0, 1 or 130.  It is 0 exactly when no call
    into the connector raised and [os.path.abspath] returned; it is 130
    exactly when a call into the connector raised [KeyboardInterrupt]. *)
Theorem exit_status_tells_failure os cfg w :
  let x := main os cfg w in
  (exit_status (res x) = 0 ∨ exit_status (res x) = 1 ∨
   exit_status (res x) = 130) ∧
  (exit_status (res x) = 0 ↔
   Forall (λ e, is_failure e = false) (events x) ∧
   is_Some (os_path_abspath os (OUTPUT_DIR_DATA cfg))) ∧
  (exit_status (res x) = 130 ↔
   Exists (λ e, raised_by e = Some KeyboardInterrupt) (events x)).
Proof.
  intros x. subst x.
  destruct (run_anatomy _ _ _ _ _ (main_run os cfg w))
    as [(Hr & Hd & pre & Hev & Hpre)
       |[(e & Hr & Hev)
        |[(Hr & Hd & Hev)
         |(s & e & pre & post & Hr & Hev & Hpre & Hpost)]]];
    rewrite Hr, Hev.
  - split; [by left|]. split.
    + split; [intros _|done]. split; [|done].
      apply Forall_app. split; [|by repeat constructor].
      eapply Forall_impl; [exact Hpre|]. apply calm_no_failure.
    + split; [done|]. intros Hex. exfalso. revert Hex. apply none_raised.
      apply Forall_app. split; [|by repeat constructor].
      eapply Forall_impl; [exact Hpre|]. apply calm_not_raised.
  - split; [destruct e; cbn; auto|]. split.
    + split; [by destruct e|].
      intros [H _]. apply Forall_cons in H as [_ H].
      by apply Forall_cons in H as [H _].
    + rewrite !Exists_cons, Exists_nil. cbn.
      destruct e; cbn; split; try done; try (by intros [?|[?|[]]]);
        intros _; right; by left.
  - split; [right; by left|]. split.
    + split; [done|]. intros [_ [p Hp]]. congruence.
    + split; [done|]. rewrite !Exists_cons, Exists_nil. cbn.
      by intros [?|[?|[?|[]]]].
  - split; [destruct e; cbn; auto|]. split.
    + split; [by destruct e|].
      intros [H _]. apply Forall_app in H as [_ H].
      by apply Forall_cons in H as [H _].
    + rewrite Exists_app, Exists_cons, Exists_app. cbn [raised_by].
      assert (N1 : ¬ Exists (λ e, raised_by e = Some KeyboardInterrupt) pre).
      { apply none_raised. eapply Forall_impl; [exact Hpre|].
        apply calm_not_raised. }
      assert (N2 : ¬ Exists (λ e, raised_by e = Some KeyboardInterrupt) post).
      { apply none_raised. eapply Forall_impl; [exact Hpost|].
        apply report_not_raised. }
      pose proof (none_raised KeyboardInterrupt _ (aftermath_not_raised e))
        as N3.
      destruct e; cbn [is_Exception exit_status]; split; try done;
        try (intros [?|[?|[?|?]]]; done); intros _; right; by left.
Qed.

(** ** Exceptions that are not [Exception]s *)

(** X3: the handler of [except Exception] runs for a statement that
    raised exactly when the exception is an [Exception]: then the
    critical-error message is printed and [main] leaves with
    [SystemExit(1)]; otherwise no critical-error message is printed and
    the exception itself leaves [main].  In both cases the connection is
    closed once. *)
Theorem critical_handler_for_exceptions_only os cfg w s e :
  let x := main os cfg w in
  EExecute s (Some e) ∈ events x →
  count is_close (events x) = 1%nat ∧
  (is_Exception e = true →
   res x = Raise (SystemExit 1) ∧
   EPrint (MsgCriticalError e) ∈ events x) ∧
  (is_Exception e = false →
   res x = Raise (Err e) ∧
   ∀ e', EPrint (MsgCriticalError e') ∉ events x).
Proof.
  intros x Hin.
  destruct (failed_statement_anatomy _ _ _ _ _ _ _ (main_run os cfg w) Hin)
    as (Hr & pre & post & Hev & Hpre & Hpost).
  subst x. rewrite Hr, Hev. clear Hr Hev Hin.
  assert (Hpre' : Forall (λ e, is_close e = false) pre).
  { eapply Forall_impl; [exact Hpre|]. by intros [| | | |[]]. }
  assert (Hpost' : Forall (λ e, is_close e = false) post).
  { eapply Forall_impl; [exact Hpost|]. by intros [| | | |[]]. }
  split; [|split].
  - rewrite count_app, count_cons, count_app.
    rewrite (count_none is_close pre), (count_none is_close post) by done.
    by destruct e.
  - intros He. rewrite He. split; [done|].
    rewrite elem_of_app, elem_of_cons, elem_of_app. right. right. right.
    unfold aftermath. rewrite He. by left.
  - intros He. rewrite He. split; [done|].
    intros e'. rewrite elem_of_app, elem_of_cons, elem_of_app.
    unfold aftermath. rewrite He. cbn [app].
    rewrite !elem_of_cons, elem_of_nil.
    intros [Hin|[?|[Hin|[?|[?|[]]]]]]; try done.
    + rewrite Forall_forall in Hpre. by apply Hpre in Hin.
    + rewrite Forall_forall in Hpost. by apply Hpost in Hin.
Qed.

Lemma critical_handler_for_exceptions_only_witness :
  let x := main (demo_host ["/work/out/A.csv.gz"]) (demo_config ["A"])
                (start empty_snowflake
                   [None; None; None; None; Some KeyboardInterrupt]) in
  count is_close (events x) = 1%nat ∧ res x = Raise (Err KeyboardInterrupt).
Proof.
  destruct (critical_handler_for_exceptions_only
              (demo_host ["/work/out/A.csv.gz"]) (demo_config ["A"])
              (start empty_snowflake
                 [None; None; None; None; Some KeyboardInterrupt])
              (copy_sql "A") KeyboardInterrupt) as (Hc & _ & Hi).
  - refine (bool_decide_unpack _ _). vm_compute. exact I.
  - exact (conj Hc (proj1 (Hi eq_refl))).
Defined.

(** ** Runs in which the connector reports no error *)

Lemma present_cons os abs_path t l :
  present os abs_path (t :: l) =
  if os_path_exists os (local_file abs_path t)
  then t :: present os abs_path l else present os abs_path l.
Proof.
  unfold present. destruct (os_path_exists os (local_file abs_path t)) eqn:He.
  - rewrite filter_cons_True; [done|by rewrite He].
  - rewrite filter_cons_False; [done|rewrite He; by intros []].
Qed.

Lemma planned_cons os abs_path t l :
  planned os abs_path (t :: l) =
  if os_path_exists os (local_file abs_path t)
  then transfers abs_path t ++ planned os abs_path l
  else planned os abs_path l.
Proof.
  unfold planned. rewrite present_cons.
  by destruct (os_path_exists os (local_file abs_path t)).
Qed.

Lemma archived_nil fs : archived [] fs = fs.
Proof. unfold archived. cbn. set_solver. Qed.

Lemma done_not_among_todo t l :
  done_path t ∉ (list_to_set (todo_path <$> l) : gset string).
Proof.
  rewrite elem_of_list_to_set, list_elem_of_fmap.
  intros (u & Hu & _). symmetry in Hu. by apply todo_path_not_done in Hu.
Qed.

Lemma archived_cons t l fs :
  archived l (({[ done_path t ]} ∪ ({[ todo_path t ]} ∪ fs))
                ∖ {[ todo_path t ]})
  = archived (t :: l) fs.
Proof.
  unfold archived. cbn [fmap list_fmap list_to_set foldr].
  pose proof (done_not_among_todo t l) as H1.
  pose proof (todo_path_not_done t t) as H2.
  apply set_eq. intros x.
  destruct (decide (x = done_path t)) as [->|Hx]; set_solver.
Qed.

Lemma snowflake_eq a b : stages a = stages b → files a = files b → a = b.
Proof. destruct a, b. cbn. by intros -> ->. Qed.

(** The loop when the connector reports no error. *)
Lemma turns_fault_free os abs_path tables w y :
  turns os abs_path tables w y →
  no_fault (answers w) →
  res y = Ok tt ∧
  no_fault (answers (final y)) ∧
  executed y = planned os abs_path tables ∧
  stages (wh (final y)) = stages (wh w) ∧
  (Forall plain tables →
   files (wh (final y)) =
   archived (present os abs_path tables) (files (wh w))).
Proof.
  induction 1 as [w|table rest w r w' tr Ht|table rest w w' tr x Ht Hx IH];
    intros Hnf.
  - repeat split; try done. intros _. by rewrite archived_nil.
  - pose proof (λ k, answer_at_all_no_fault k _ Hnf) as Hk.
    inversion Ht; congruence.
  - pose proof (λ k, answer_at_all_no_fault k _ Hnf) as Hk.
    rewrite planned_cons, present_cons.
    inversion Ht as [Hex| | | | |Hex A0 A1 A2 A3]; subst.
    + rewrite Hex. rewrite start_eta in *.
      destruct (IH Hnf) as (Hr & Hnf' & He & Hs & Hf).
      repeat split; try done.
      intros [_ Hpl]%Forall_cons. by apply Hf.
    + rewrite Hex.
      destruct IH as (Hr & Hnf' & He & Hs & Hf);
        [by apply Forall_drop|].
      cbn [start wh answers] in *. subst sf1 sf2 sf3.
      repeat split; try done.
      * unfold executed, events in *. unfold out at 1. cbn [snd].
        by rewrite fmap_app, omap_app, He.
      * intros [Hp Hpl]%Forall_cons.
        unfold final. cbn [fst snd]. unfold final in Hf. rewrite (Hf Hpl).
        rewrite moved_files by done. apply archived_cons.
Qed.

Lemma ensure_stage_stages sf :
  stages (ensure_stage sf) = {[ STAGE_NAME ]} ∪ stages sf.
Proof. unfold ensure_stage. case_bool_decide; [set_solver|done]. Qed.

Lemma fault_free_run os cfg w abs_path :
  no_fault (answers w) →
  os_path_abspath os (OUTPUT_DIR_DATA cfg) = Some abs_path →
  let x := main os cfg w in
  res x = Ok tt ∧
  no_fault (answers (final x)) ∧
  executed x =
    use_schema cfg :: CreateStage true STAGE_NAME csv_stage_format ::
    planned os abs_path (DATA_TABLES_TO_EXPORT cfg) ∧
  stages (wh (final x)) = {[ STAGE_NAME ]} ∪ stages (wh w) ∧
  (Forall plain (DATA_TABLES_TO_EXPORT cfg) →
   files (wh (final x)) =
   archived (present os abs_path (DATA_TABLES_TO_EXPORT cfg))
            (files (wh w))).
Proof.
  intros Hnf Hdir x. subst x.
  pose proof (λ k, answer_at_all_no_fault k _ Hnf) as Hk.
  destruct (main_run os cfg w)
    as [e H0|H0 Hd|abs e Hd H0 H1|abs e Hd H0 H1 H2|abs y Hd H0 H1 H2 sf' Hy];
    try congruence.
  assert (abs = abs_path) as -> by congruence.
  apply turns_fault_free in Hy as (Hr & Hnf' & He & Hs & Hf);
    [|by apply Forall_drop].
  cbn [start wh] in Hs, Hf. subst sf'.
  destruct y as [[ry wy] try].
  unfold res, final, executed, events, out in *. cbn [fst snd] in *. subst ry.
  repeat split; try done.
  - rewrite !fmap_app, !omap_app, He, ending_executed. cbn.
    by rewrite app_nil_r.
  - by rewrite Hs, ensure_stage_stages.
  - intros Hpl. rewrite (Hf Hpl).
    by rewrite (proj2 (ensure_stage_spec (wh w))).
Qed.

Lemma elem_of_planned os abs_path tables s :
  s ∈ planned os abs_path tables ↔
  ∃ t, t ∈ tables ∧ os_path_exists os (local_file abs_path t) = true ∧
       s ∈ transfers abs_path t.
Proof.
  induction tables as [|u l IH].
  - split; [by intros ?%elem_of_nil|]. by intros (t & ?%elem_of_nil & _).
  - rewrite planned_cons.
    destruct (os_path_exists os (local_file abs_path u)) eqn:Hu.
    + rewrite elem_of_app, IH. split.
      * intros [Hs|(t & Ht & He & Hs)].
        -- exists u. split; [by left|done].
        -- exists t. split; [by right|done].
      * intros (t & [->|Ht]%elem_of_cons & He & Hs); [by left|].
        right. by exists t.
    + rewrite IH. split.
      * intros (t & Ht & He & Hs). exists t. split; [by right|done].
      * intros (t & [->|Ht]%elem_of_cons & He & Hs); [congruence|].
        by exists t.
Qed.

Lemma elem_of_present os abs_path tables t :
  t ∈ present os abs_path tables ↔
  t ∈ tables ∧ os_path_exists os (local_file abs_path t) = true.
Proof.
  unfold present. rewrite list_elem_of_filter.
  destruct (os_path_exists os (local_file abs_path t)); naive_solver.
Qed.

(** X4: when the connector reports no error and line 28 resolves the
    output directory, the run returns, and the statements it sends are [USE SCHEMA], [CREATE STAGE IF NOT EXISTS] and
    then, for each configured table that has a local file, in the order of
    the configuration and as often as the table is listed, the four
    statements of its turn: upload, [COPY INTO], upload into [processed],
    [REMOVE]. *)
Theorem statements_of_a_clean_run os cfg w abs_path :
  no_fault (answers w) →
  os_path_abspath os (OUTPUT_DIR_DATA cfg) = Some abs_path →
  let x := main os cfg w in
  res x = Ok tt ∧
  executed x =
    use_schema cfg :: CreateStage true STAGE_NAME csv_stage_format ::
    concat (transfers abs_path <$>
            filter (λ t, Is_true (os_path_exists os (local_file abs_path t)))
                   (DATA_TABLES_TO_EXPORT cfg)).
Proof.
  intros Hnf Hdir x.
  destruct (fault_free_run os cfg w abs_path Hnf Hdir) as (Hr & _ & He & _).
  by split.
Qed.

Lemma statements_of_a_clean_run_witness :
  let x := main (demo_host ["/work/out/A.csv.gz"; "/work/out/C.csv.gz"])
                (demo_config ["C"; "B"; "A"; "C"])
                (start empty_snowflake []) in
  executed x =
    use_schema (demo_config ["C"; "B"; "A"; "C"]) ::
    CreateStage true STAGE_NAME csv_stage_format ::
    transfers "/work/out" "C" ++ transfers "/work/out" "A" ++
    transfers "/work/out" "C".
Proof.
  destruct (statements_of_a_clean_run
              (demo_host ["/work/out/A.csv.gz"; "/work/out/C.csv.gz"])
              (demo_config ["C"; "B"; "A"; "C"])
              (start empty_snowflake []) "/work/out"
              (List.Forall_nil _) eq_refl) as (_ & He).
  exact He.
Defined.

(** X5: when the connector reports no error and line 28 resolves the
    output directory, a table's [COPY INTO] is sent exactly when the table
    is configured and has a local file: every such table is loaded, and no
    other. *)
Theorem clean_run_loads_every_present_table os cfg w t abs_path :
  no_fault (answers w) →
  os_path_abspath os (OUTPUT_DIR_DATA cfg) = Some abs_path →
  copy_sql t ∈ executed (main os cfg w) ↔
  t ∈ DATA_TABLES_TO_EXPORT cfg ∧
  os_path_exists os (local_file abs_path t) = true.
Proof.
  intros Hnf Hdir.
  destruct (fault_free_run os cfg w abs_path Hnf Hdir) as (_ & _ & He & _).
  cbv zeta in He. rewrite He, !elem_of_cons, elem_of_planned.
  split.
  - intros [?|[?|(u & Hu & Hex & Hs)]]; try discriminate.
    unfold transfers in Hs. rewrite !elem_of_cons, elem_of_nil in Hs.
    destruct Hs as [?|[Hs|[?|[?|[]]]]]; try discriminate.
    apply copy_sql_inj in Hs as ->. done.
  - intros [Ht Hex]. right. right. exists t.
    split; [done|]. split; [done|].
    unfold transfers. rewrite !elem_of_cons. by right; left.
Qed.

Lemma clean_run_loads_every_present_table_witness :
  copy_sql "A"
    ∈ executed (main (demo_host ["/work/out/A.csv.gz"])
                     (demo_config ["B"; "A"]) (start empty_snowflake [])).
Proof.
  apply (clean_run_loads_every_present_table
           (demo_host ["/work/out/A.csv.gz"]) (demo_config ["B"; "A"])
           (start empty_snowflake []) "A" "/work/out"
           (List.Forall_nil _) eq_refl).
  split; [|reflexivity].
  refine (bool_decide_unpack _ _). vm_compute. exact I.
Defined.

(** X6: when the connector reports no error, line 28 resolves the output
    directory and the table names are plain, the stage holds after the run the files it held before, less
    the [not_processed] paths of the tables that have a local file, plus
    their [processed] paths; each such table's file is under [processed]
    and not under [not_processed], whatever the stage held before; and the
    only stage added is [MIGRATION_LOAD_STAGE]. *)
Theorem stage_after_a_clean_run os cfg w abs_path :
  no_fault (answers w) →
  Forall plain (DATA_TABLES_TO_EXPORT cfg) →
  os_path_abspath os (OUTPUT_DIR_DATA cfg) = Some abs_path →
  let loaded := present os abs_path (DATA_TABLES_TO_EXPORT cfg) in
  let x := main os cfg w in
  files (wh (final x)) =
    (files (wh w) ∖ list_to_set (todo_path <$> loaded))
      ∪ list_to_set (done_path <$> loaded) ∧
  stages (wh (final x)) = {[ STAGE_NAME ]} ∪ stages (wh w) ∧
  (∀ t, t ∈ DATA_TABLES_TO_EXPORT cfg →
        os_path_exists os (local_file abs_path t) = true →
        done_path t ∈ files (wh (final x)) ∧
        todo_path t ∉ files (wh (final x))).
Proof.
  intros Hnf Hpl Hdir loaded x.
  destruct (fault_free_run os cfg w abs_path Hnf Hdir)
    as (_ & _ & _ & Hs & Hf).
  specialize (Hf Hpl). cbv zeta in Hf, Hs.
  fold x in Hf, Hs. unfold archived in Hf. fold loaded in Hf.
  split; [done|]. split; [done|].
  intros t Ht Hex.
  assert (t ∈ loaded) as Hin by (by apply elem_of_present).
  rewrite Hf. split.
  - apply elem_of_union_r, elem_of_list_to_set, list_elem_of_fmap.
    by exists t.
  - rewrite elem_of_union, elem_of_difference, !elem_of_list_to_set,
            !list_elem_of_fmap.
    intros [[_ Hn]|(u & Hu & _)].
    + apply Hn. by exists t.
    + by apply todo_path_not_done in Hu.
Qed.

Lemma stage_after_a_clean_run_witness :
  let x := main (demo_host ["/work/out/A.csv.gz"]) (demo_config ["A"; "B"])
                (start {| stages := ∅;
                          files := {[ todo_path "A"; todo_path "B" ]} |} []) in
  done_path "A" ∈ files (wh (final x)) ∧
  todo_path "A" ∉ files (wh (final x)).
Proof.
  destruct (stage_after_a_clean_run
              (demo_host ["/work/out/A.csv.gz"]) (demo_config ["A"; "B"])
              (start {| stages := ∅;
                        files := {[ todo_path "A"; todo_path "B" ]} |} [])
              "/work/out" (List.Forall_nil _)) as (_ & _ & H).
  - by repeat constructor.
  - reflexivity.
  - apply (H "A"); [|reflexivity].
    refine (bool_decide_unpack _ _). vm_compute. exact I.
Defined.

(** What the loop does to the files of the stage when the connector
    reports no error is decided by the machine and the tables: a set of
    paths goes, another comes. *)
Lemma turns_fault_free_files os abs_path tables :
  ∃ gone added : gset string, ∀ w y,
    turns os abs_path tables w y →
    no_fault (answers w) →
    files (wh (final y)) = (files (wh w) ∖ gone) ∪ added.
Proof.
  induction tables as [|t l (gone & added & IH)].
  - exists ∅, ∅. intros w y Hy _. inversion Hy; subst.
    unfold final. cbn [fst snd]. set_solver.
  - destruct (os_path_exists os (local_file abs_path t)) eqn:Hex.
    + exists ({[ todo_path t ]} ∪ gone),
             ((({[ staged PATH_TODO (local_file abs_path t);
                   staged PATH_DONE (local_file abs_path t) ]}
                ∖ {[ todo_path t ]}) ∖ gone) ∪ added).
      intros w y Hy Hnf.
      pose proof (λ k, answer_at_all_no_fault k _ Hnf) as Hk.
      inversion Hy as [|? ? ? r w' tr Ht|? ? ? w' tr x Ht Hx]; subst.
      { inversion Ht; congruence. }
      inversion Ht as [Hm| | | | |_ _ _ _ _]; subst; [congruence|].
      unfold final at 1. cbn [fst snd].
      rewrite (IH _ _ Hx) by (by apply Forall_drop).
      subst sf1 sf2 sf3. unfold start, remove_file, put_file, staged.
      cbn [wh files]. set_solver.
    + exists gone, added. intros w y Hy Hnf.
      pose proof (λ k, answer_at_all_no_fault k _ Hnf) as Hk.
      inversion Hy as [|? ? ? r w' tr Ht|? ? ? w' tr x Ht Hx]; subst.
      { inversion Ht; congruence. }
      inversion Ht as [Hm| | | | |]; subst; [|congruence].
      unfold final at 1. cbn [fst snd].
      rewrite (IH _ _ Hx) by done. done.
Qed.

Lemma fault_free_run_files os cfg abs_path :
  os_path_abspath os (OUTPUT_DIR_DATA cfg) = Some abs_path →
  ∃ gone added : gset string, ∀ w,
    no_fault (answers w) →
    files (wh (final (main os cfg w))) = (files (wh w) ∖ gone) ∪ added.
Proof.
  intros Hdir.
  destruct (turns_fault_free_files os abs_path (DATA_TABLES_TO_EXPORT cfg))
    as (gone & added & Hloop).
  exists gone, added. intros w Hnf.
  pose proof (λ k, answer_at_all_no_fault k _ Hnf) as Hk.
  destruct (main_run os cfg w)
    as [e H0|H0 Hd|abs e Hd H0 H1|abs e Hd H0 H1 H2|abs y Hd H0 H1 H2 sf' Hy];
    try congruence.
  assert (abs = abs_path) as -> by congruence.
  unfold final at 1. cbn [fst snd].
  rewrite (Hloop _ _ Hy) by (by apply Forall_drop).
  cbn [start wh]. subst sf'. by rewrite (proj2 (ensure_stage_spec (wh w))).
Qed.

(** X7: the script keeps no record of what it has loaded.  After a run
    in which the connector reported no error, a second such run over the
    same configuration and local files sends the same statements again,
    every [COPY INTO] included, and leaves the warehouse as the first run
    left it. *)
Theorem second_run_repeats_the_first os cfg w ans :
  no_fault (answers w) →
  no_fault ans →
  let first := main os cfg w in
  let again := main os cfg (start (wh (final first)) ans) in
  executed again = executed first ∧
  wh (final again) = wh (final first).
Proof.
  intros Hnf Hnf' first again.
  destruct (os_path_abspath os (OUTPUT_DIR_DATA cfg)) as [abs_path|] eqn:Hdir.
  - destruct (fault_free_run os cfg w abs_path Hnf Hdir)
      as (_ & _ & He & Hs & _).
    destruct (fault_free_run os cfg (start (wh (final first)) ans) abs_path
                Hnf' Hdir) as (_ & _ & He' & Hs' & _).
    destruct (fault_free_run_files os cfg abs_path Hdir)
      as (gone & added & Hfiles).
    pose proof (Hfiles w Hnf) as Hf.
    pose proof (Hfiles (start (wh (final first)) ans) Hnf') as Hf'.
    cbv zeta in *. fold first in He, Hs, Hf, He', Hs', Hf'.
    fold again in He', Hs', Hf'. cbn [start wh] in Hs', Hf'.
    split; [by rewrite He, He'|].
    apply snowflake_eq.
    + rewrite Hs', Hs. set_solver.
    + rewrite Hf', Hf. set_solver.
  - pose proof (λ k, answer_at_all_no_fault k _ Hnf) as Hk.
    pose proof (λ k, answer_at_all_no_fault k _ Hnf') as Hk'.
    subst again.
    destruct (main_run os cfg (start (wh (final first)) ans))
      as [e H0|H0 Hd|abs e Hd H0 H1|abs e Hd H0 H1 H2|abs y Hd H0 H1 H2 sf' Hy];
      cbn [start answers] in *; try congruence.
    subst first.
    destruct (main_run os cfg w)
      as [e K0|K0 Kd|abs e Kd K0 K1|abs e Kd K0 K1 K2|abs y Kd K0 K1 K2 sf' Hy];
      try congruence.
    done.
Qed.

Lemma second_run_repeats_the_first_witness :
  let os := demo_host ["/work/out/sub/T.csv.gz"] in
  let first := main os (demo_config ["sub/T"]) (start empty_snowflake []) in
  let again := main os (demo_config ["sub/T"]) (start (wh (final first)) []) in
  executed again = executed first ∧ wh (final again) = wh (final first).
Proof.
  apply (second_run_repeats_the_first (demo_host ["/work/out/sub/T.csv.gz"])
           (demo_config ["sub/T"]) (start empty_snowflake []) []).
  - constructor.
  - constructor.
Defined.

(** ** What no run does to the warehouse *)

Section Invariant.

Variable Q : snowflake → Prop.
Hypothesis Q_stage : ∀ sf, Q sf → Q (ensure_stage sf).
Hypothesis Q_put : ∀ folder abs_path t sf,
  folder = PATH_TODO ∨ folder = PATH_DONE →
  Q sf → Q (put_file (stage_folder folder) (local_file abs_path t) sf).
Hypothesis Q_remove : ∀ t sf, Q sf → Q (remove_file (todo_path t) sf).

Lemma turn_invariant os abs_path table sf ans x :
  turn os abs_path table sf ans x →
  Q sf →
  Forall (λ en, Q (after en)) (out x) ∧ Q (wh (final x)).
Proof.
  intros Ht HQ.
  pose proof (Q_put PATH_TODO abs_path table sf (or_introl eq_refl) HQ) as Q1.
  pose proof (Q_put PATH_DONE abs_path table _ (or_intror eq_refl) Q1) as Q2.
  pose proof (Q_remove table _ Q2) as Q3.
  destruct Ht; try destruct e;
    unfold out, final, upload_prefix;
    cbn [fst snd start wh load_failed_report is_ProgrammingError app];
    (split; [|done]); by repeat constructor.
Qed.

Lemma turns_invariant os abs_path tables w x :
  turns os abs_path tables w x →
  Q (wh w) →
  Forall (λ en, Q (after en)) (out x) ∧ Q (wh (final x)).
Proof.
  induction 1 as [w|table rest w r w' tr Ht|table rest w w' tr x Ht Hx IH];
    intros HQ.
  - by split.
  - by apply (turn_invariant _ _ _ _ _ _ Ht).
  - destruct (turn_invariant _ _ _ _ _ _ Ht HQ) as [T1 T2].
    unfold out, final in T1, T2. cbn [fst snd] in T1, T2.
    destruct (IH T2) as [I1 I2].
    unfold out at 1, final at 1. cbn [fst snd].
    split; [|done]. by apply Forall_app_2.
Qed.

Lemma ending_invariant r sf :
  Q sf → Forall (λ en, Q (after en)) (ending r sf).2.
Proof. intros HQ. destruct r as [|[[]|]]; cbn; by repeat constructor. Qed.

Lemma run_invariant os cfg sf ans x :
  run os cfg sf ans x →
  Q sf →
  Forall (λ en, Q (after en)) (out x) ∧ Q (wh (final x)).
Proof.
  intros Hrun HQ.
  destruct Hrun as [e H0|H0 Hd|abs e Hd H0 H1|abs e Hd H0 H1 H2
                    |abs y Hd H0 H1 H2 sf' Hy];
    unfold out at 1, final at 1; cbn [fst snd start wh].
  - split; [|done]. by repeat constructor.
  - split; [|done]. by repeat constructor.
  - split; [|done].
    change (Forall (λ en, Q (after en))
              ([ printed (MsgConnecting (tc_account (TARGET_CONFIG cfg))) sf;
                 {| ev := EConnect (TARGET_CONFIG cfg) None; after := sf |};
                 {| ev := ECursor; after := sf |};
                 ran (use_schema cfg) (Some e) sf ]
               ++ (ending (Raise (Err e)) sf).2)).
    apply Forall_app_2; [by repeat constructor|by apply ending_invariant].
  - split; [|done].
    change (Forall (λ en, Q (after en))
              ([ printed (MsgConnecting (tc_account (TARGET_CONFIG cfg))) sf;
                 {| ev := EConnect (TARGET_CONFIG cfg) None; after := sf |};
                 {| ev := ECursor; after := sf |};
                 ran (use_schema cfg) None sf;
                 printed MsgCreatingStage sf;
                 ran (CreateStage true STAGE_NAME csv_stage_format)
                     (Some e) sf ]
               ++ (ending (Raise (Err e)) sf).2)).
    apply Forall_app_2; [by repeat constructor|by apply ending_invariant].
  - subst sf'.
    destruct (turns_invariant _ _ _ _ _ Hy (Q_stage _ HQ)) as [T1 T2].
    split; [|done].
    change (Forall (λ en, Q (after en))
              ([ printed (MsgConnecting (tc_account (TARGET_CONFIG cfg))) sf;
                 {| ev := EConnect (TARGET_CONFIG cfg) None; after := sf |};
                 {| ev := ECursor; after := sf |};
                 ran (use_schema cfg) None sf;
                 printed MsgCreatingStage sf;
                 ran (CreateStage true STAGE_NAME csv_stage_format) None
                     (ensure_stage sf) ]
               ++ (out y ++ (ending (res y) (wh (final y))).2))).
    apply Forall_app_2; [repeat constructor; cbn; auto|].
    apply Forall_app_2; [done|by apply ending_invariant].
Qed.

End Invariant.

Lemma put_adds_under_folder folder file sf p :
  p ∈ files (put_file (stage_folder folder) file sf) ↔
  p = stage_folder folder +:+ Path.basename file ∨ p ∈ files sf.
Proof. unfold put_file. cbn [files]. set_solver. Qed.

(** X8: no run removes from the stage a file that is not under
    [not_processed]: such a file, there when the run starts, is there
    after every step of the run and at its end, whatever the connector
    answers.  In particular nothing is ever removed from [processed]. *)
Theorem only_pending_files_are_removed os cfg w p :
  (∀ name, p ≠ stage_folder PATH_TODO +:+ name) →
  p ∈ files (wh w) →
  let x := main os cfg w in
  Forall (λ en, p ∈ files (after en)) (out x) ∧
  p ∈ files (wh (final x)).
Proof.
  intros Hp Hin x.
  apply (run_invariant (λ sf, p ∈ files sf)) with os cfg (wh w) (answers w);
    [ | | |apply main_run|done].
  - intros sf. by rewrite (proj2 (ensure_stage_spec sf)).
  - intros folder abs_path t sf _ H. apply put_adds_under_folder. by right.
  - intros t sf H. unfold remove_file. cbn [files].
    apply elem_of_difference. split; [done|].
    rewrite elem_of_singleton. apply Hp.
Qed.

Lemma only_pending_files_are_removed_witness :
  let w := start {| stages := ∅; files := {[ done_path "A" ]} |}
                 [None; None; None; None; None; None; Some ProgrammingError] in
  done_path "A"
    ∈ files (wh (final (main (demo_host ["/work/out/A.csv.gz"])
                             (demo_config ["A"]) w))).
Proof.
  apply (only_pending_files_are_removed
           (demo_host ["/work/out/A.csv.gz"]) (demo_config ["A"])
           (start {| stages := ∅; files := {[ done_path "A" ]} |}
                  [None; None; None; None; None; None; Some ProgrammingError])
           (done_path "A")).
  - intros name H. symmetry in H. by apply folders_apart in H.
  - cbn [start wh files]. by apply elem_of_singleton.
Defined.

(** X9: a run touches, in the warehouse, only the two folders of its
    stage: a path that is under neither [not_processed] nor [processed]
    of [MIGRATION_LOAD_STAGE] is in the stage after every step, and at the
    end, exactly when it was there at the start; and the stages after
    every step are those of the start, with at most [MIGRATION_LOAD_STAGE]
    added. *)
Theorem only_the_two_folders_are_touched os cfg w p :
  (∀ name, p ≠ stage_folder PATH_TODO +:+ name) →
  (∀ name, p ≠ stage_folder PATH_DONE +:+ name) →
  let x := main os cfg w in
  Forall (λ en, (p ∈ files (after en) ↔ p ∈ files (wh w)) ∧
                stages (wh w) ⊆ stages (after en) ∧
                stages (after en) ⊆ {[ STAGE_NAME ]} ∪ stages (wh w))
         (out x) ∧
  (p ∈ files (wh (final x)) ↔ p ∈ files (wh w)) ∧
  stages (wh w) ⊆ stages (wh (final x)) ∧
  stages (wh (final x)) ⊆ {[ STAGE_NAME ]} ∪ stages (wh w).
Proof.
  intros Ht Hd x.
  apply (run_invariant
           (λ sf, (p ∈ files sf ↔ p ∈ files (wh w)) ∧
                  stages (wh w) ⊆ stages sf ∧
                  stages sf ⊆ {[ STAGE_NAME ]} ∪ stages (wh w)))
    with os cfg (wh w) (answers w); [ | | |apply main_run|].
  - intros sf (Hf & Hs1 & Hs2).
    rewrite (proj2 (ensure_stage_spec sf)), ensure_stage_stages.
    split; [done|]. split; set_solver.
  - intros folder abs_path t sf Hfolder (Hf & Hs).
    split; [|done]. rewrite put_adds_under_folder, <- Hf.
    split; [|by right]. intros [Heq|?]; [exfalso|done].
    destruct Hfolder as [->| ->]; [apply (Ht _ Heq)|apply (Hd _ Heq)].
  - intros t sf (Hf & Hs). split; [|done].
    unfold remove_file. cbn [files].
    rewrite elem_of_difference, elem_of_singleton, <- Hf.
    split; [by intros [? _]|]. intros H. split; [done|]. apply Ht.
  - split; [done|]. split; set_solver.
Qed.

Lemma only_the_two_folders_are_touched_witness :
  let w := start {| stages := {[ "OTHER_STAGE" ]};
                    files := {[ "OTHER_STAGE/A.csv.gz" ]} |} [] in
  let x := main (demo_host ["/work/out/A.csv.gz"]) (demo_config ["A"]) w in
  "OTHER_STAGE/A.csv.gz" ∈ files (wh (final x)) ↔
  "OTHER_STAGE/A.csv.gz" ∈ files (wh w).
Proof.
  destruct (only_the_two_folders_are_touched
              (demo_host ["/work/out/A.csv.gz"]) (demo_config ["A"])
              (start {| stages := {[ "OTHER_STAGE" ]};
                        files := {[ "OTHER_STAGE/A.csv.gz" ]} |} [])
              "OTHER_STAGE/A.csv.gz") as (_ & H & _).
  - intros name H. cbv in H. discriminate H.
  - intros name H. cbv in H. discriminate H.
  - exact H.
Defined.

(** ** The report of a failed load *)

Ltac events_of_turn :=
  unfold events, executed, events, out, res, final, upload_prefix;
  cbn [fst snd start wh load_failed_report is_ProgrammingError app
       fmap list_fmap omap list_omap statement_of printed ran ev];
  rewrite ?elem_of_cons, ?elem_of_nil.

(** X10: a turn prints [LOAD FAILED for <table>] exactly when it ends
    with a [ProgrammingError] raised after its [COPY INTO] was sent: by the
    [COPY INTO] itself, or, the load having succeeded, by the upload into
    [processed] or by the [REMOVE].  An upload into [not_processed] that
    raises, and an exception of another class, are not reported so. *)
Theorem load_failed_is_reported os abs_path table w t :
  let x := load_table os abs_path table w in
  EPrint (MsgLoadFailed t) ∈ events x ↔
  t = table ∧
  res x = Raise (Err ProgrammingError) ∧
  copy_sql table ∈ executed x.
Proof.
  intros x. subst x.
  destruct (load_table_turn os abs_path table w); try destruct e;
    events_of_turn; naive_solver.
Qed.

(** X11: when a turn prints that the file remains under
    [not_processed], the path it prints is the one its [REMOVE] would
    name, the turn has ended with a [ProgrammingError], and the file it
    uploaded is still in the [not_processed] folder; for a plain table
    name that is the very path printed. *)
Theorem file_remains_as_reported os abs_path table w p :
  let x := load_table os abs_path table w in
  EPrint (MsgFileRemains p) ∈ events x →
  p = todo_path table ∧
  res x = Raise (Err ProgrammingError) ∧
  staged PATH_TODO (local_file abs_path table) ∈ files (wh (final x)) ∧
  (plain table → p ∈ files (wh (final x))).
Proof.
  intros x Hin. subst x.
  assert (Hst : ∀ sf,
    staged PATH_TODO (local_file abs_path table)
      ∈ files (put_file (stage_folder PATH_TODO)
                        (local_file abs_path table) sf)
    ∧ staged PATH_TODO (local_file abs_path table)
      ∈ files (put_file (stage_folder PATH_DONE) (local_file abs_path table)
                 (put_file (stage_folder PATH_TODO)
                           (local_file abs_path table) sf))).
  { intros sf. split; [apply uploaded_is_staged|].
    apply put_adds_under_folder. right. apply uploaded_is_staged. }
  assert (Hgoal : p = todo_path table ∧
    res (load_table os abs_path table w) = Raise (Err ProgrammingError) ∧
    staged PATH_TODO (local_file abs_path table)
      ∈ files (wh (final (load_table os abs_path table w)))).
  { destruct (Hst (wh w)) as [S1 S2].
    destruct (load_table_turn os abs_path table w); try destruct e;
      revert Hin; events_of_turn; naive_solver. }
  destruct Hgoal as (-> & Hr & Hs). repeat split; try done.
  intros Hplain. unfold todo_path.
  by rewrite <- (staged_local abs_path).
Qed.

Lemma file_remains_as_reported_witness :
  let x := load_table (demo_host ["/work/out/A.csv.gz"]) "/work/out" "A"
             (start empty_snowflake [None; None; None; Some ProgrammingError]) in
  todo_path "A" ∈ files (wh (final x)).
Proof.
  destruct (file_remains_as_reported (demo_host ["/work/out/A.csv.gz"])
              "/work/out" "A"
              (start empty_snowflake [None; None; None; Some ProgrammingError])
              (todo_path "A")) as (_ & _ & _ & H).
  - refine (bool_decide_unpack _ _). vm_compute. exact I.
  - exact (H eq_refl).
Defined.

(** ** No rollback *)

Lemma processed_kept_by_turn os abs_path table sf ans x p :
  (∀ name, p ≠ stage_folder PATH_TODO +:+ name) →
  turn os abs_path table sf ans x →
  p ∈ files sf → p ∈ files (wh (final x)).
Proof.
  intros Hp Ht Hin.
  apply (turn_invariant (λ sf, p ∈ files sf)) with os abs_path table sf ans;
    [ | |done|done].
  - intros folder a t s _ H. apply put_adds_under_folder. by right.
  - intros t s H. unfold remove_file. cbn [files].
    apply elem_of_difference. split; [done|].
    rewrite elem_of_singleton. apply Hp.
Qed.

Lemma done_path_not_pending u name :
  done_path u ≠ stage_folder PATH_TODO +:+ name.
Proof. intros H. symmetry in H. by apply folders_apart in H. Qed.

Lemma turn_moved os abs_path table sf ans x u :
  plain u →
  turn os abs_path table sf ans x →
  EExecute (Remove (todo_path u)) None ∈ events x →
  done_path u ∈ files (wh (final x)).
Proof.
  intros Hplain Ht Hin.
  destruct Ht; try destruct e; revert Hin; events_of_turn;
    try naive_solver.
  intros [?|[?|[?|[?|[?|[?|[?|[?|[Heq|[]]]]]]]]]]; try discriminate.
  injection Heq as Heq. apply (filename_of_inj u table) in Heq. subst table.
  by apply moved_in_done.
Qed.

Lemma turns_keep_archived os abs_path tables w y u :
  plain u →
  turns os abs_path tables w y →
  done_path u ∈ files (wh w) ∨
    EExecute (Remove (todo_path u)) None ∈ events y →
  done_path u ∈ files (wh (final y)).
Proof.
  intros Hplain.
  induction 1 as [w|table rest w r w' tr Ht|table rest w w' tr x Ht Hx IH];
    intros Hor.
  - destruct Hor as [?|Hin]; [done|]. by apply elem_of_nil in Hin.
  - destruct Hor as [Hin|Hin].
    + apply (processed_kept_by_turn _ _ _ _ _ _ _
               (done_path_not_pending u) Ht Hin).
    + by apply (turn_moved _ _ _ _ _ _ _ Hplain Ht).
  - unfold final at 1. cbn [fst snd]. apply IH.
    destruct Hor as [Hin|Hin].
    + left. apply (processed_kept_by_turn _ _ _ _ _ _ _
                     (done_path_not_pending u) Ht Hin).
    + unfold events, out in Hin. cbn [snd] in Hin.
      rewrite fmap_app, elem_of_app in Hin. destruct Hin as [Hin|Hin].
      * left. by apply (turn_moved _ _ _ _ _ _ _ Hplain Ht).
      * by right.
Qed.

(** X12: there is no rollback.  Once the [REMOVE] of a table (a plain
    name) has gone through, the table's file is under [processed] when
    the run ends, whatever happens afterwards: a later table whose load
    fails, and the run ending with status 1, undo nothing. *)
Theorem archived_tables_stay_archived os cfg w u :
  plain u →
  let x := main os cfg w in
  EExecute (Remove (todo_path u)) None ∈ events x →
  done_path u ∈ files (wh (final x)).
Proof.
  intros Hplain x Hin. subst x.
  destruct (main_run os cfg w)
    as [e H0|H0 Hd|abs e Hd H0 H1|abs e Hd H0 H1 H2|abs y Hd H0 H1 H2 sf' Hy];
    unfold events, out in Hin; cbn [snd] in Hin;
    rewrite ?fmap_app, ?elem_of_app in Hin;
    cbn [fmap list_fmap printed ran ev opening] in Hin;
    rewrite ?elem_of_cons, ?elem_of_nil in Hin.
  - by destruct Hin as [?|[?|?]].
  - by destruct Hin as [[?|[?|?]]|[?|?]].
  - destruct Hin as [[?|[?|?]]|[[?|[?|?]]|Hin]]; try done.
    destruct e as [| |]; cbn in Hin;
      rewrite ?elem_of_cons, ?elem_of_nil in Hin; naive_solver.
  - destruct Hin as [[?|[?|?]]|[[?|[?|[?|[?|?]]]]|Hin]]; try done.
    destruct e as [| |]; cbn in Hin;
      rewrite ?elem_of_cons, ?elem_of_nil in Hin; naive_solver.
  - destruct Hin as [[?|[?|?]]|[[?|[?|[?|[?|?]]]]|[Hin|Hin]]]; try done.
    + unfold final at 1. cbn [fst snd].
      apply (turns_keep_archived _ _ _ _ _ u Hplain Hy). by right.
    + destruct (res y) as [|[[]|]]; cbn in Hin;
        rewrite ?elem_of_cons, ?elem_of_nil in Hin; naive_solver.
Qed.

Lemma archived_tables_stay_archived_witness :
  let x := main (demo_host ["/work/out/A.csv.gz"; "/work/out/B.csv.gz"])
                (demo_config ["A"; "B"])
                (start empty_snowflake
                   [None; None; None; None; None; None; None;
                    None; Some ProgrammingError]) in
  exit_status (res x) = 1 ∧ done_path "A" ∈ files (wh (final x)).
Proof.
  split; [vm_compute; reflexivity|].
  apply (archived_tables_stay_archived
           (demo_host ["/work/out/A.csv.gz"; "/work/out/B.csv.gz"])
           (demo_config ["A"; "B"])
           (start empty_snowflake
              [None; None; None; None; None; None; None;
               None; Some ProgrammingError]) "A" eq_refl).
  refine (bool_decide_unpack _ _). vm_compute. exact I.
Defined.

(** ** What is uploaded and what is removed *)

(** X13: every [PUT] a run sends uploads the local file of a configured
    table, a file that exists, into [not_processed] or [processed] of the
    stage, with [OVERWRITE=TRUE]; the script uploads nothing else. *)
Theorem uploads_are_existing_files_of_tables os cfg w file location overwrite :
  Put file location overwrite ∈ executed (main os cfg w) →
  overwrite = true ∧
  (location = stage_folder PATH_TODO ∨ location = stage_folder PATH_DONE) ∧
  os_path_exists os file = true ∧
  ∃ abs_path t,
    os_path_abspath os (OUTPUT_DIR_DATA cfg) = Some abs_path ∧
    t ∈ DATA_TABLES_TO_EXPORT cfg ∧ file = local_file abs_path t.
Proof.
  intros Hin.
  apply (run_issued _ _ _ _ _ (main_run os cfg w)) in Hin.
  inversion Hin as [| |abs_path t s Hd Ht Hex Hs]; subst.
  unfold transfers, copy_sql in Hs.
  rewrite !elem_of_cons, elem_of_nil in Hs.
  destruct Hs as [Hs|[Hs|[Hs|[Hs|[]]]]]; try discriminate Hs;
    injection Hs as -> -> ->;
    (split; [done|]); (split; [by auto|]); (split; [done|]);
    by exists abs_path, t.
Qed.

Lemma uploads_are_existing_files_of_tables_witness :
  os_path_exists (demo_host ["/work/out/A.csv.gz"])
                 (local_file "/work/out" "A") = true.
Proof.
  destruct (uploads_are_existing_files_of_tables
              (demo_host ["/work/out/A.csv.gz"]) (demo_config ["A"; "B"])
              (start empty_snowflake [])
              (local_file "/work/out" "A") (stage_folder PATH_DONE) true)
    as (_ & _ & H & _).
  - refine (bool_decide_unpack _ _). vm_compute. exact I.
  - exact H.
Defined.

Lemma turn_remove_follows_load os abs_path table sf ans x p r :
  turn os abs_path table sf ans x →
  EExecute (Remove p) r ∈ events x →
  p = todo_path table ∧
  ∃ pre post,
    events x = pre ++ EExecute (Remove p) r :: post ∧
    EExecute (copy_sql table) None ∈ pre ∧
    EExecute (Put (local_file abs_path table) (stage_folder PATH_DONE) true)
             None ∈ pre.
Proof.
  intros Ht Hin.
  destruct Ht; try destruct e; revert Hin; events_of_turn;
    try naive_solver;
    intros Hin;
    repeat match goal with
      | H : _ ∨ _ |- _ => destruct H as [H|H]
      end; try discriminate; try done;
    injection Hin as -> ->;
    (split; [done|]);
    eexists [_; _; _; _; _; _; _; _], _;
    (split; [reflexivity|]);
    rewrite !elem_of_cons; naive_solver.
Qed.

Lemma turns_remove_follows_load os abs_path tables w y p r :
  turns os abs_path tables w y →
  EExecute (Remove p) r ∈ events y →
  ∃ t pre post,
    t ∈ tables ∧ p = todo_path t ∧
    events y = pre ++ EExecute (Remove p) r :: post ∧
    EExecute (copy_sql t) None ∈ pre ∧
    EExecute (Put (local_file abs_path t) (stage_folder PATH_DONE) true)
             None ∈ pre.
Proof.
  induction 1 as [w|table rest w r' w' tr Ht|table rest w w' tr x Ht Hx IH];
    intros Hin.
  - by apply elem_of_nil in Hin.
  - destruct (turn_remove_follows_load _ _ _ _ _ _ _ _ Ht Hin)
      as (-> & pre & post & Hev & H1 & H2).
    exists table, pre, post. split; [by left|done].
  - unfold events, out in Hin. cbn [snd] in Hin.
    rewrite fmap_app, elem_of_app in Hin. destruct Hin as [Hin|Hin].
    + destruct (turn_remove_follows_load _ _ _ _ _ _ _ _ Ht Hin)
        as (-> & pre & post & Hev & H1 & H2).
      unfold events, out in Hev. cbn [snd] in Hev.
      exists table, pre, (post ++ (ev <$> out x)).
      split; [by left|]. split; [done|]. split; [|done].
      unfold events, out. cbn [snd].
      by rewrite fmap_app, Hev, <- app_assoc.
    + destruct (IH Hin) as (t & pre & post & Ht' & -> & Hev & H1 & H2).
      exists t, ((ev <$> tr) ++ pre), post.
      split; [by right|]. split; [done|].
      unfold events, out in *. cbn [snd] in *.
      split; [by rewrite fmap_app, Hev, <- app_assoc|].
      split; apply elem_of_app; by right.
Qed.

(** X14: a file is removed from [not_processed] only after it has been
    loaded and archived: every [REMOVE] a run sends names the
    [not_processed] path of a configured table and comes, in the trace,
    after a [COPY INTO] of that table and an upload of its file into
    [processed] that both went through. *)
Theorem remove_only_after_load_and_archive os cfg w p r :
  let x := main os cfg w in
  EExecute (Remove p) r ∈ events x →
  ∃ abs_path t pre post,
    os_path_abspath os (OUTPUT_DIR_DATA cfg) = Some abs_path ∧
    t ∈ DATA_TABLES_TO_EXPORT cfg ∧ p = todo_path t ∧
    events x = pre ++ EExecute (Remove p) r :: post ∧
    EExecute (copy_sql t) None ∈ pre ∧
    EExecute (Put (local_file abs_path t) (stage_folder PATH_DONE) true)
             None ∈ pre.
Proof.
  intros x Hin. subst x.
  destruct (main_run os cfg w)
    as [e H0|H0 Hd|abs e Hd H0 H1|abs e Hd H0 H1 H2|abs y Hd H0 H1 H2 sf' Hy];
    unfold events, out in Hin; cbn [snd] in Hin;
    rewrite ?fmap_app, ?elem_of_app in Hin;
    cbn [fmap list_fmap printed ran ev opening] in Hin;
    rewrite ?elem_of_cons, ?elem_of_nil in Hin.
  - by destruct Hin as [?|[?|?]].
  - by destruct Hin as [[?|[?|?]]|[?|?]].
  - destruct Hin as [[?|[?|?]]|[[?|[?|?]]|Hin]]; try done.
    destruct e as [| |]; cbn in Hin;
      rewrite ?elem_of_cons, ?elem_of_nil in Hin; naive_solver.
  - destruct Hin as [[?|[?|?]]|[[?|[?|[?|[?|?]]]]|Hin]]; try done.
    destruct e as [| |]; cbn in Hin;
      rewrite ?elem_of_cons, ?elem_of_nil in Hin; naive_solver.
  - destruct Hin as [[?|[?|?]]|[[?|[?|[?|[?|?]]]]|[Hin|Hin]]]; try done.
    + destruct (turns_remove_follows_load _ _ _ _ _ _ _ Hy Hin)
        as (t & pre & post & Ht & -> & Hev & H1' & H2').
      eexists abs, t, (_ :: _ :: _ :: _ :: _ :: _ :: pre), _.
      split; [done|]. split; [done|]. split; [done|].
      unfold events, out in *. cbn [snd] in *.
      rewrite !fmap_app, Hev.
      cbn [fmap list_fmap printed ran ev opening app].
      split; [by rewrite <- app_assoc|].
      rewrite !elem_of_cons. naive_solver.
    + destruct (res y) as [|[[]|]]; cbn in Hin;
        rewrite ?elem_of_cons, ?elem_of_nil in Hin; naive_solver.
Qed.

Lemma remove_only_after_load_and_archive_witness :
  let x := main (demo_host ["/work/out/A.csv.gz"]) (demo_config ["A"])
                (start empty_snowflake []) in
  ∃ t, t ∈ ["A"] ∧ todo_path "A" = todo_path t.
Proof.
  destruct (remove_only_after_load_and_archive
              (demo_host ["/work/out/A.csv.gz"]) (demo_config ["A"])
              (start empty_snowflake []) (todo_path "A") None)
    as (_ & t & _ & _ & _ & Ht & Hp & _).
  - refine (bool_decide_unpack _ _). vm_compute. exact I.
  - exists t. exact (conj Ht Hp).
Defined.
